(** * SemanticSearch frontend client: a shallow embedding and its properties

    The repository holds three near-identical copies of one browser module,
    [SemanticSearch]:
    - the URL-sync copy (first half of [src/js/semantic-search-client.js]),
    - the copy with [_normalizeResult] but without URL sync
      ([src/unnamed/part_000]),
    - the plain copy (second half of [src/js/semantic-search-client.js]).
    [configure] and [search] are the same text in all three. The first two
    share [_normalizeResult] and [_renderResults]; the plain copy resolves
    the fields of a result inside its render loop ([Plain.resolve]).
    [bindSearchBox] of the URL-sync copy extends the other one with a
    [keydown] listener and the initial read of the [q] parameter.

    JavaScript values are embedded as a datatype [JS.value]; property reads
    and string conversions that can throw return in the [JS.result] monad;
    the promise, the XMLHttpRequest events, the timer table and the DOM
    fields the module touches are explicit state. Of the page the module
    runs in, one thing is a parameter ([Platform]): which strings its URL
    parser accepts; the properties hold for every page, and the examples
    at the end of the file run on one page ([example_platform]). The
    automatic binding at [DOMContentLoaded] only calls [bindSearchBox] and
    is left out. *)

From stdpp Require Import gmap strings list sorting.
From Stdlib Require Import ZArith DecimalString Ascii.

Open Scope Z_scope.
Open Scope string_scope.

(** ** JavaScript values *)

Module JS.

(** Numbers are the integer ones ([limit], lengths, HTTP statuses), each an
    integer that a double holds; strings are sequences of 8-bit code units.
    An object is a finite map from property names to values, as
    [JSON.parse] builds it. *)
#[warnings="-register-all"]
Inductive value : Type :=
| VUndefined
| VNull
| VBool (b : bool)
| VNum (n : Z)
| VStr (s : string)
| VArr (elems : list value)
| VObj (props : gmap string value).

(** What a [throw] carries: a TypeError of the language, an [Error] made by
    the module, or a DOMException of the platform, told by its name. *)
Inductive exn : Type :=
| TypeError
| Error (message : string)
| DOMException (name : string).

Inductive result (A : Type) : Type :=
| Ok (a : A)
| Throw (e : exn).
Arguments Ok {A} a.
Arguments Throw {A} e.

#[global] Instance result_ret : MRet result := @Ok.
#[global] Instance result_bind : MBind result := fun A B f m =>
  match m with
  | Ok a => f a
  | Throw e => Throw e
  end.

(** ToBoolean. *)
Definition truthy (v : value) : bool :=
  match v with
  | VUndefined | VNull => false
  | VBool b => b
  | VNum n => negb (n =? 0)%Z
  | VStr s => negb (String.eqb s "")
  | VArr _ | VObj _ => true
  end.

(** [o.k] for the data properties the client reads. Reading a property of
    [undefined] or [null] throws a TypeError; a missing property reads as
    [undefined]. Methods ([trim], [substring]) are modelled where they are
    called, and array elements are read through the list. *)
Definition get (o : value) (k : string) : result value :=
  match o with
  | VUndefined | VNull => Throw TypeError
  | VObj props => Ok (default VUndefined (props !! k))
  | VArr elems =>
      Ok (if String.eqb k "length" then VNum (Z.of_nat (length elems)) else VUndefined)
  | VStr s =>
      Ok (if String.eqb k "length" then VNum (Z.of_nat (String.length s)) else VUndefined)
  | VBool _ | VNum _ => Ok VUndefined
  end.

(** [a && b] and [a || b]: the right operand is evaluated only when the
    left one does not decide, so an exception in it is raised only then. *)
Definition and_ (a b : result value) : result value :=
  x ← a; if truthy x then b else Ok x.
Definition or_ (a b : result value) : result value :=
  x ← a; if truthy x then Ok x else b.

Notation "a &&& b" := (and_ a b) (at level 40, left associativity).
Notation "a ||| b" := (or_ a b) (at level 50, left associativity).

(** The decimal numeral of an integer. *)
Definition digits (n : Z) : string := NilZero.string_of_int (Z.to_int n).

(** Number::toString on the integers that a double holds. Up to 2^53 the
    digits are those of the integer. Above, they are the digits of the
    shortest decimal numeral that reads back as the same double, the nearest
    one if there are several: [round_trips a c] says that [c] lies in the
    rounding interval of the double [a], half a unit in the last place to
    either side (a quarter below a power of two), its ends included when the
    mantissa is even; [shortest] tries one more digit at a time. Up to 21
    digits the numeral is written out, padded with zeros; longer ones take
    the exponent form, such as [1e+21]. *)
Definition round_trips (a c : Z) : bool :=
  let ulp := 2 ^ (Z.log2 a - 52) in
  let m := a / ulp in
  let below := if (m =? 2 ^ 52)%Z then ulp else 2 * ulp in
  if Z.even m
  then (4 * a - below <=? 4 * c)%Z && (4 * c <=? 4 * a + 2 * ulp)%Z
  else (4 * a - below <? 4 * c)%Z && (4 * c <? 4 * a + 2 * ulp)%Z.

Fixpoint shortest (fuel : nat) (a p : Z) : Z :=
  match fuel with
  | O => a
  | S fuel' =>
      let down := a / p * p in
      let up := down + p in
      match round_trips a down, round_trips a up with
      | true, true => if (a - down <=? up - a)%Z then down else up
      | true, false => down
      | false, true => up
      | false, false => shortest fuel' a (p / 10)
      end
  end.

Fixpoint strip_zeros (s : string) : string :=
  match s with
  | String c s' =>
      match strip_zeros s' with
      | EmptyString => if Ascii.eqb c "0" then EmptyString else String c EmptyString
      | r => String c r
      end
  | EmptyString => EmptyString
  end.

Definition string_of_Z (n : Z) : string :=
  let a := Z.abs n in
  let sign := if (n <? 0)%Z then "-" else "" in
  if (a <=? 2 ^ 53)%Z then sign +:+ digits a
  else
    let len := String.length (digits a) in
    let d := digits (shortest len a (10 ^ Z.of_nat (len - 1))) in
    if (String.length d <=? 21)%nat then sign +:+ d
    else
      let exponent := "e+" +:+ digits (Z.of_nat (String.length d - 1)) in
      match strip_zeros d with
      | String c EmptyString => sign +:+ String c exponent
      | String c rest => sign +:+ String c ("." +:+ rest) +:+ exponent
      | EmptyString => sign +:+ d
      end.

(** ToString, as string concatenation applies it to an operand. An object
    prints as [[object Object]] through [Object.prototype.toString]; one
    that carries an own [toString] property shadows that method with a
    value that cannot be called (nothing [JSON.parse] builds can), and the
    conversion throws. An array joins its elements with commas, [null] and
    [undefined] elements printing as nothing. *)
Fixpoint ToString (v : value) : result string :=
  match v with
  | VUndefined => Ok "undefined"
  | VNull => Ok "null"
  | VBool b => Ok (if b then "true" else "false")
  | VNum n => Ok (string_of_Z n)
  | VStr s => Ok s
  | VArr elems =>
      (fix join (l : list value) : result string :=
         match l with
         | [] => Ok ""
         | e :: l' =>
             s ← match e with
                 | VUndefined | VNull => Ok ""
                 | _ => ToString e
                 end;
             match l' with
             | [] => Ok s
             | _ => r ← join l'; Ok (s +:+ "," +:+ r)
             end
         end) elems
  | VObj props =>
      match props !! "toString" with
      | Some _ => Throw TypeError
      | None => Ok "[object Object]"
      end
  end.

(** WhiteSpace and LineTerminator code units below 256: TAB, LF, VT, FF,
    CR, SP and NBSP. *)
Definition is_whitespace (c : ascii) : bool :=
  let n := nat_of_ascii c in
  ((9 <=? n)%nat && (n <=? 13)%nat) || (n =? 32)%nat || (n =? 160)%nat.

Fixpoint trimStart (s : string) : string :=
  match s with
  | String c s' => if is_whitespace c then trimStart s' else s
  | EmptyString => EmptyString
  end.

Definition trimEnd (s : string) : string :=
  String.rev (trimStart (String.rev s)).

(** [String.prototype.trim]. *)
Definition trim (s : string) : string := trimEnd (trimStart s).

Fixpoint string_take (n : nat) (s : string) : string :=
  match n, s with
  | S n', String c s' => String c (string_take n' s')
  | _, _ => EmptyString
  end.

Fixpoint string_drop (n : nat) (s : string) : string :=
  match n, s with
  | S n', String _ s' => string_drop n' s'
  | _, _ => s
  end.

(** [s.substring(i, j)] for non-negative integer arguments: both are
    clamped to the length and swapped when out of order. *)
Definition substring (s : string) (i j : nat) : string :=
  let a := Nat.min i (String.length s) in
  let b := Nat.min j (String.length s) in
  string_take (Nat.max a b - Nat.min a b) (string_drop (Nat.min a b) s).

End JS.

Import JS.

(** ** Options and markup helpers *)

(** The [options] object of [search], [bindSearchBox] and [_renderResults],
    with the fields the module reads; [None] is an absent field. *)
Record options : Type := mkOptions {
  limit : option Z;
  minLength : option Z;
  debounce : option Z;
  showExcerpt : option bool;
  noResultsText : option string
}.

(** [options || {}] *)
Definition no_options : options := mkOptions None None None None None.

(** [n || d] on an optional number: absent and [0] give [d]. *)
Definition num_or (n : option Z) (d : Z) : Z :=
  match n with
  | Some n => if (n =? 0)%Z then d else n
  | None => d
  end.

(** [s || d] on an optional string: absent and the empty string give [d]. *)
Definition str_or (s : option string) (d : string) : string :=
  match s with
  | Some s => if String.eqb s "" then d else s
  | None => d
  end.

(** The quotation mark of the markup literals. *)
Definition dq : string := String "034"%char EmptyString.
Definition quoted (s : string) : string := dq +:+ s +:+ dq.

(** ** The client: configuration and search *)

(** The two data fields of the [SemanticSearch] object. Either may hold any
    value: the module load copies them from [window.SEMANTIC_SEARCH_CONFIG]
    and [configure] stores what it is given. *)
Record SemanticSearch : Type := mkClient {
  endpoint : value;
  readerKey : value
}.

(** [configure(options)]. Both assignments read a property of [options], so
    an [options] that is [undefined] or [null] throws in the first one, with
    nothing assigned yet. *)
Definition configure (this : SemanticSearch) (options : value) : result SemanticSearch :=
  e ← get options "endpoint" ||| Ok (endpoint this);
  r ← get options "readerKey" ||| Ok (readerKey this);
  Ok {| endpoint := e; readerKey := r |}.

(** A promise settles once: [resolve] and [reject] on a settled promise do
    nothing. *)
Inductive promise : Type :=
| Pending
| Resolved (v : value)
| Rejected (e : exn).

Definition resolve (v : value) (p : promise) : promise :=
  match p with Pending => Resolved v | _ => p end.

Definition reject (e : exn) (p : promise) : promise :=
  match p with Pending => Rejected e | _ => p end.

(** What the client hands to [xhr.open], [xhr.setRequestHeader] and
    [xhr.send], once all three have accepted it. [req_body] is the object
    handed to [JSON.stringify]. *)
Record request : Type := mkRequest {
  req_method : string;
  req_url : string;
  req_headers : list (string * string);
  req_body : value
}.

(** What the client needs to know of the page it runs in: which strings
    the URL parser accepts, relative to the base URL of the document.
    [xhr.open] throws a SyntaxError on the others. *)
Class Platform : Type := {
  parses_as_url : string -> bool
}.

(** The bytes that [xhr.setRequestHeader] strips from both ends of a value:
    TAB, LF, CR and SP. *)
Definition is_http_whitespace (c : ascii) : bool :=
  let n := nat_of_ascii c in
  (n =? 9)%nat || (n =? 10)%nat || (n =? 13)%nat || (n =? 32)%nat.

Fixpoint strip_http_whitespace (s : string) : string :=
  match s with
  | String c s' => if is_http_whitespace c then strip_http_whitespace s' else s
  | EmptyString => EmptyString
  end.

(** A header value that [xhr.setRequestHeader] accepts: stripped at both
    ends, it holds no NUL, LF or CR. On any other it throws a SyntaxError. *)
Definition is_header_value (s : string) : bool :=
  forallb (fun c => let n := nat_of_ascii c in
                    negb ((n =? 0)%nat || (n =? 10)%nat || (n =? 13)%nat))
    (String.list_ascii_of_string
       (strip_http_whitespace (String.rev (strip_http_whitespace (String.rev s))))).

(** [xhr.open('POST', url, true)] and [xhr.setRequestHeader(name, value)],
    as far as they can fail here. *)
Definition xhr_open {platform : Platform} (url : string) : result unit :=
  if parses_as_url url then Ok tt else Throw (DOMException "SyntaxError").

Definition xhr_setRequestHeader (name value : string) : result (string * string) :=
  if is_header_value value then Ok (name, value) else Throw (DOMException "SyntaxError").

(** [search(query, options)] up to the return of the promise executor: the
    promise as the executor leaves it and the request it sent, if any. An
    exception inside the executor (a string conversion that throws, a URL
    or a header value that the request object refuses) rejects the promise,
    and [send] has not been reached. *)
Definition search {platform : Platform} (self : SemanticSearch) (query : string)
  (opts : option options) : promise * option request :=
  let opts := default no_options opts in
  if negb (truthy (endpoint self)) then
    (Rejected (Error "SemanticSearch endpoint not configured"), None)
  else
    match
      base ← ToString (endpoint self);
      _ ← xhr_open (base +:+ "/v1/search");
      content ← xhr_setRequestHeader "Content-Type" "application/json";
      auth ← (if truthy (readerKey self)
              then key ← ToString (readerKey self);
                   h ← xhr_setRequestHeader "Authorization" ("Bearer " +:+ key);
                   Ok [h]
              else Ok []);
      Ok {| req_method := "POST";
            req_url := base +:+ "/v1/search";
            req_headers := content :: auth;
            req_body := VObj {[ "query" := VStr query;
                                "limit" := VNum (num_or (limit opts) 10) ]} |}
    with
    | Ok r => (Pending, Some r)
    | Throw e => (Rejected e, None)
    end.

(** The events of the request object that the client listens to. [body] is
    what [JSON.parse(xhr.responseText)] yields at that moment: [None] when it
    throws a SyntaxError. *)
Inductive xhr_event : Type :=
| readystatechange (readyState status : Z) (body : option value)
| error.

(** [xhr.onreadystatechange] *)
Definition onreadystatechange (readyState status : Z) (body : option value)
  (p : promise) : promise :=
  if (readyState =? 4)%Z then
    if (200 <=? status)%Z && (status <? 300)%Z then
      match body with
      | Some response =>
          match get response "results" ||| Ok response ||| Ok (VArr []) with
          | Ok v => resolve v p
          | Throw _ => reject (Error "Failed to parse response") p
          end
      | None => reject (Error "Failed to parse response") p
      end
    else reject (Error ("Search failed: " +:+ string_of_Z status)) p
  else p.

(** [xhr.onerror] *)
Definition onerror (p : promise) : promise :=
  reject (Error "Network error") p.

Definition dispatch_xhr (ev : xhr_event) (p : promise) : promise :=
  match ev with
  | readystatechange readyState status body => onreadystatechange readyState status body p
  | error => onerror p
  end.

(** The promise after the request object has fired [evs] in order. *)
Definition settle (evs : list xhr_event) (p : promise) : promise :=
  foldl (fun p ev => dispatch_xhr ev p) p evs.

(** The events of an exchange that ends with a response: headers received,
    loading, done. *)
Definition response_events (status : Z) (body : option value) : list xhr_event :=
  [readystatechange 2 status None; readystatechange 3 status None;
   readystatechange 4 status body].

(** The events of a request that ends in a network error (the request error
    steps of the XMLHttpRequest standard): the state becomes DONE with status
    0 and [readystatechange] fires, and only then [error] fires. *)
Definition network_error_events : list xhr_event :=
  [readystatechange 4 0 None; error].

(** ** Normalisation and rendering *)

Record normalized : Type := mkNormalized {
  title : value;
  url : value;
  excerpt : value
}.

(** [c ? a : b] *)
Definition cond {A} (c : result value) (a b : result A) : result A :=
  x ← c; if truthy x then a else b.

(** [_normalizeResult(item)] *)
Definition _normalizeResult (item : value) : result normalized :=
  doc ← cond (Ok item &&& get item "document") (get item "document") (Ok item);
  metadata ← cond (Ok doc &&& get doc "metadata") (get doc "metadata")
               (cond (Ok item &&& get item "metadata") (get item "metadata") (Ok (VObj ∅)));
  title ← Ok metadata &&& get metadata "title" ||| Ok doc &&& get doc "title"
            ||| Ok item &&& get item "title" ||| Ok (VStr "Untitled");
  url ← Ok metadata &&& get metadata "url" ||| Ok doc &&& get doc "url"
          ||| Ok item &&& get item "url" ||| Ok (VStr "#");
  excerpt ← Ok metadata &&& get metadata "excerpt" ||| Ok doc &&& get doc "excerpt"
              ||| Ok item &&& get item "excerpt" ||| Ok (VStr "");
  Ok {| title := title; url := url; excerpt := excerpt |}.

(** The two DOM fields of the result container that the module writes. *)
Record element : Type := mkElement {
  innerHTML : string;
  display : string
}.

(** [excerpt.substring(0, 100) + (excerpt.length > 100 ? '...' : '')], for
    the receiver at hand: only a string has [substring]; on any other value
    the call is a call of [undefined] and throws a TypeError. *)
Definition shortExcerpt (excerpt : value) : result string :=
  match excerpt with
  | VStr e =>
      Ok (substring e 0 100 +:+ (if (100 <? String.length e)%nat then "..." else ""))
  | _ => Throw TypeError
  end.

(** The markup that the loop of [_renderResults] appends to [html] for one
    result, once its fields are resolved. *)
Definition item_markup (normalized : normalized) (opts : options) : result string :=
  u ← ToString (url normalized);
  t ← ToString (title normalized);
  p ← (if truthy (excerpt normalized) && negb (bool_decide (showExcerpt opts = Some false))
       then short ← shortExcerpt (excerpt normalized);
            Ok ("<p class=" +:+ quoted "semantic-search-result-excerpt" +:+ ">"
                +:+ short +:+ "</p>")
       else Ok "");
  Ok ("<li class=" +:+ quoted "semantic-search-result-item" +:+ ">"
      +:+ "<a href=" +:+ quoted u +:+ " class=" +:+ quoted "semantic-search-result-link"
      +:+ ">" +:+ t +:+ "</a>"
      +:+ p
      +:+ "</li>").

(** The body of the loop of [_renderResults] for one element [results[i]]. *)
Definition render_item (item : value) (opts : options) : result string :=
  normalized ← _normalizeResult item;
  item_markup normalized opts.

(** The loop: [html] after the elements of [results] from left to right. *)
Fixpoint render_items (html : string) (results : list value) (opts : options)
  : result string :=
  match results with
  | [] => Ok html
  | item :: rest =>
      h ← render_item item opts;
      render_items (html +:+ h) rest opts
  end.

(** [_renderResults(container, results, options)]. [results] is an array, or
    [None] for a falsy argument. The container is written after the loop, so
    an exception in the loop leaves it as it was. *)
Definition _renderResults (container : element) (results : option (list value))
  (opts : options) : result element :=
  match results with
  | None | Some [] =>
      Ok {| innerHTML := "<div class=" +:+ quoted "semantic-search-no-results" +:+ ">"
                         +:+ str_or (noResultsText opts) "No results found" +:+ "</div>";
            display := "block" |}
  | Some results =>
      html ← render_items ("<ul class=" +:+ quoted "semantic-search-result-list" +:+ ">")
               results opts;
      Ok {| innerHTML := html +:+ "</ul>"; display := "block" |}
  end.

(** ** The plain copy *)

Module Plain.

(** The first statements of the loop body of [_renderResults] in the plain
    copy, which has no [_normalizeResult]: the metadata object is
    [item.document.metadata], else [item.metadata]; the title falls back on
    [item.document.id]; [url] and [excerpt] are not looked up in the
    document. Nothing guards the read of [item.document]. *)
Definition resolve (item : value) : result normalized :=
  meta ← get item "document" &&& (d ← get item "document"; get d "metadata")
           ||| get item "metadata" ||| Ok (VObj ∅);
  title ← get meta "title" ||| get item "document" &&& (d ← get item "document"; get d "id")
            ||| get item "title" ||| Ok (VStr "Untitled");
  url ← get meta "url" ||| get item "url" ||| Ok (VStr "#");
  excerpt ← get meta "excerpt" ||| get item "excerpt" ||| Ok (VStr "");
  Ok {| title := title; url := url; excerpt := excerpt |}.

Definition render_item (item : value) (opts : options) : result string :=
  normalized ← resolve item;
  item_markup normalized opts.

End Plain.

(** ** The window: URL, session history, timers *)

(** A URL as [new URL(href)] splits it: the query as the ordered list of
    name-value pairs behind [url.searchParams], and the rest. *)
Record URL : Type := mkURL {
  url_rest : string;
  searchParams : list (string * string)
}.

(** [searchParams.get(name)]: the value of the first pair of that name. *)
Fixpoint searchParams_get (name : string) (ps : list (string * string)) : option string :=
  match ps with
  | [] => None
  | (n, v) :: ps' => if String.eqb n name then Some v else searchParams_get name ps'
  end.

(** [searchParams.delete(name)]: every pair of that name goes. *)
Definition searchParams_delete (name : string) (ps : list (string * string))
  : list (string * string) :=
  filter (fun p => String.eqb p.1 name = false) ps.

(** [searchParams.set(name, value)]: the first pair of that name takes the
    value and the others go; without one, the pair is appended. *)
Fixpoint searchParams_set (name value : string) (ps : list (string * string))
  : list (string * string) :=
  match ps with
  | [] => [(name, value)]
  | (n, v) :: ps' =>
      if String.eqb n name then (name, value) :: searchParams_delete name ps'
      else (n, v) :: searchParams_set name value ps'
  end.

(** The session history: its entries and the index of the current one,
    whose URL is [window.location.href]. *)
Record window : Type := mkWindow {
  entries : list URL;
  current : nat
}.

Definition location_href (w : window) : URL :=
  default (mkURL "" []) (entries w !! current w).

(** [history.replaceState({}, '', url)]: the current entry gets the URL; no
    entry is added and nothing is loaded. *)
Definition replaceState (u : URL) (w : window) : window :=
  {| entries := <[current w := u]> (entries w); current := current w |}.

(** [_updateUrl(query)] *)
Definition _updateUrl (query : string) (w : window) : window :=
  let u := location_href w in
  let ps := if negb (String.eqb query "")
            then searchParams_set "q" query (searchParams u)
            else searchParams_delete "q" (searchParams u) in
  replaceState {| url_rest := url_rest u; searchParams := ps |} w.

(** [_getQueryFromUrl()] *)
Definition _getQueryFromUrl (w : window) : string :=
  match searchParams_get "q" (searchParams (location_href w)) with
  | Some v => if String.eqb v "" then "" else v
  | None => ""
  end.

(** A pending timeout of the binding: when it is due, and the [query] its
    callback closes over. *)
Record timer : Type := mkTimer {
  fires_at : Z;
  timer_query : string
}.

(** One call of [self.search]: its arguments, and what the call left behind
    (the promise and the request sent, if any). *)
Record search_call : Type := mkCall {
  call_query : string;
  call_limit : Z;
  call_promise : promise;
  call_request : option request
}.

(** ** The bound search box *)

(** Everything [bindSearchBox] and its listeners read or write. *)
Record page : Type := mkPage {
  now : Z;                          (* the clock, in ms *)
  input_value : string;             (* input.value *)
  resultContainer : element;
  debounceTimer : option nat;       (* var debounceTimer: undefined, or the last id *)
  timers : gmap nat timer;          (* the timeouts still pending *)
  next_timer : nat;                 (* the id setTimeout hands out next *)
  win : window;
  searches : list search_call       (* the calls of self.search, oldest first *)
}.

Definition set_now (t : Z) (s : page) : page :=
  mkPage t (input_value s) (resultContainer s) (debounceTimer s) (timers s)
    (next_timer s) (win s) (searches s).
Definition set_input_value (v : string) (s : page) : page :=
  mkPage (now s) v (resultContainer s) (debounceTimer s) (timers s)
    (next_timer s) (win s) (searches s).
Definition set_resultContainer (c : element) (s : page) : page :=
  mkPage (now s) (input_value s) c (debounceTimer s) (timers s)
    (next_timer s) (win s) (searches s).
Definition set_timers (tm : gmap nat timer) (s : page) : page :=
  mkPage (now s) (input_value s) (resultContainer s) (debounceTimer s) tm
    (next_timer s) (win s) (searches s).
Definition set_win (w : window) (s : page) : page :=
  mkPage (now s) (input_value s) (resultContainer s) (debounceTimer s) (timers s)
    (next_timer s) w (searches s).
Definition set_searches (l : list search_call) (s : page) : page :=
  mkPage (now s) (input_value s) (resultContainer s) (debounceTimer s) (timers s)
    (next_timer s) (win s) l.

(** [clearTimeout(debounceTimer)]: the timeout of that id, if still pending,
    is dropped; [clearTimeout(undefined)] does nothing. *)
Definition clearTimeout (s : page) : page :=
  match debounceTimer s with
  | Some id => set_timers (delete id (timers s)) s
  | None => s
  end.

(** The delay as [setTimeout] takes it: the argument is converted to a
    signed 32-bit integer, so that 2^31 and above wrap around, and a
    negative delay counts as none. *)
Definition to_int32 (n : Z) : Z := (n + 2 ^ 31) mod 2 ^ 32 - 2 ^ 31.

Definition timeout_delay (delay : Z) : Z := Z.max 0 (to_int32 delay).

(** [debounceTimer = setTimeout(callback, delay)] *)
Definition setTimeout (query : string) (delay : Z) (s : page) : page :=
  let id := next_timer s in
  mkPage (now s) (input_value s) (resultContainer s) (Some id)
    (<[id := {| fires_at := now s + timeout_delay delay; timer_query := query |}]> (timers s))
    (S id) (win s) (searches s).

(** The markup of the [catch] branch. *)
Definition search_failed : element :=
  {| innerHTML := "<div class=" +:+ quoted "semantic-search-error" +:+ ">Search failed</div>";
     display := "block" |}.

(** Timeout ids grow with each [setTimeout], and the delay of a binding is
    fixed: the order of the ids is the order in which its timeouts come due. *)
Definition set_before (a b : nat * timer) : Prop := (a.1 <= b.1)%nat.

#[global] Instance set_before_dec (a b : nat * timer) : Decision (set_before a b).
Proof. unfold set_before. apply _. Defined.

Section BindSearchBox.

(** The page the module runs in, the client object, the [options] argument
    of [bindSearchBox], and which copy of the module runs: the URL-sync
    copy or the other one. *)
Context {platform : Platform}.
Variable self : SemanticSearch.
Variable opts : options.
Variable url_sync : bool.

(** [var minLength = options.minLength || 2;
     var debounceMs = options.debounce || 300;] *)
Definition min_length : Z := num_or (minLength opts) 2.
Definition debounceMs : Z := num_or (debounce opts) 300.

(** The continuations of the promise of a search: [then] renders and
    [catch] writes the failure message, also when rendering threw. *)
Definition on_fulfilled (results : option (list value)) (s : page) : page :=
  match _renderResults (resultContainer s) results opts with
  | Ok c => set_resultContainer c s
  | Throw _ => set_resultContainer search_failed s
  end.

Definition on_rejected (s : page) : page :=
  set_resultContainer search_failed s.

(** [doSearch(query, updateHistory)]; the copy without URL sync has its
    body inline, with no URL update. A promise that the executor already
    rejected runs its [catch] as soon as the current listener returns. *)
Definition doSearch (query : string) (updateHistory : bool) (s : page) : page :=
  let s := if updateHistory then set_win (_updateUrl query (win s)) s else s in
  let lim := num_or (limit opts) 10 in
  let '(p, req) := search self query (Some (mkOptions (Some lim) None None None None)) in
  let s := set_searches (searches s ++ [mkCall query lim p req]) s in
  match p with
  | Rejected _ => on_rejected s
  | _ => s
  end.

(** The [input] listener. *)
Definition on_input (s : page) : page :=
  let query := trim (input_value s) in
  let s := clearTimeout s in
  if (Z.of_nat (String.length query) <? min_length)%Z then
    set_resultContainer {| innerHTML := ""; display := "none" |} s
  else
    setTimeout query debounceMs s.

(** The [keydown] listener of the URL-sync copy. *)
Definition on_keydown (key : string) (s : page) : page :=
  if url_sync && String.eqb key "Enter" then
    let query := trim (input_value s) in
    if (min_length <=? Z.of_nat (String.length query))%Z then
      doSearch query true (clearTimeout s)
    else s
  else s.

(** The [click] listener of the document, for a click whose target lies
    inside the input or the container ([inside = true]) or elsewhere. *)
Definition on_click (inside : bool) (s : page) : page :=
  if inside then s
  else set_resultContainer
         {| innerHTML := innerHTML (resultContainer s); display := "none" |} s.

(** The callback of the timeout [id]. *)
Definition on_timeout (id : nat) (tm : timer) (s : page) : page :=
  doSearch (timer_query tm) false (set_timers (delete id (timers s)) s).

(** [bindSearchBox(input, resultContainer, options)] on a page where
    nothing is bound yet: [None] when either element is missing (a
    warning is logged and nothing is bound). *)
Definition bindSearchBox (input : option string) (container : option element)
  (w : window) (t0 : Z) : option page :=
  match input, container with
  | Some v, Some c =>
      let s := mkPage t0 v c None ∅ 0 w [] in
      if url_sync then
        let urlQuery := _getQueryFromUrl w in
        if negb (String.eqb urlQuery "") then
          let s := set_input_value urlQuery s in
          if (min_length <=? Z.of_nat (String.length urlQuery))%Z
          then Some (doSearch urlQuery false s)
          else Some s
        else Some s
      else Some s
  | _, _ => None
  end.

(** What happens on the page. *)
Inductive event : Type :=
| input (value : string)       (* the user edits the field; [input] fires *)
| keydown (key : string)
| click (inside : bool)
| search_fulfilled (results : option (list value))  (* a search resolves *)
| search_rejected.                                  (* a search rejects *)

Definition handle (ev : event) (s : page) : page :=
  match ev with
  | input v => on_input (set_input_value v s)
  | keydown key => on_keydown key s
  | click inside => on_click inside s
  | search_fulfilled results => on_fulfilled results s
  | search_rejected => on_rejected s
  end.

(** The timeouts due at time [t], in the order they were set. *)
Definition due (t : Z) (tm : gmap nat timer) : list (nat * timer) :=
  merge_sort set_before
    (filter (fun p => (fires_at p.2 <= t)%Z) (map_to_list tm)).

(** The clock moves to [t]: the timeouts due by then run. *)
Definition advance (t : Z) (s : page) : page :=
  set_now t (foldl (fun s p => on_timeout p.1 p.2 s) s (due t (timers s))).

(** An event at time [t]. *)
Definition step (s : page) (te : Z * event) : page :=
  handle te.2 (advance te.1 s).

Definition run (s : page) (evs : list (Z * event)) : page :=
  foldl step s evs.

End BindSearchBox.

(** ** The statements of the specification, for comparison *)

(** [o.k] read defensively: [undefined] where the read would throw. *)
Definition peek (o : value) (k : string) : value :=
  match get o k with
  | Ok v => v
  | Throw _ => VUndefined
  end.

(** The first truthy candidate, or the default. *)
Fixpoint first_truthy (candidates : list value) (dflt : value) : value :=
  match candidates with
  | [] => dflt
  | v :: rest => if truthy v then v else first_truthy rest dflt
  end.

(** The precedence chain of one field in the words of the specification:
    [item.document.metadata.<field>], else [item.metadata.<field>], else
    [item.document.<field>], else [item.<field>], else the default; a step
    is taken when its value is there and truthy. *)
Definition spec_field (item : value) (field : string) (dflt : value) : value :=
  first_truthy
    [peek (peek (peek item "document") "metadata") field;
     peek (peek item "metadata") field;
     peek (peek item "document") field;
     peek item field]
    dflt.

Definition spec_normalize (item : value) : normalized :=
  {| title := spec_field item "title" (VStr "Untitled");
     url := spec_field item "url" (VStr "#");
     excerpt := spec_field item "excerpt" (VStr "") |}.

(** The chain the code follows: the metadata object is chosen once per item,
    the one of [item.document] when that is truthy and otherwise the one of
    [item]; each field then falls through metadata, document and item. *)
Definition chosen_field (item : value) (field : string) (dflt : value) : value :=
  let nested := peek (peek item "document") "metadata" in
  first_truthy
    [if truthy nested then peek nested field else peek (peek item "metadata") field;
     peek (peek item "document") field;
     peek item field]
    dflt.

(** A field of [options] counts as supplied when the object has it with a
    value other than [undefined]. *)
Definition supplied (options : value) (k : string) : option value :=
  match options with
  | VObj props =>
      match props !! k with
      | Some VUndefined | None => None
      | Some v => Some v
      end
  | _ => None
  end.

(** [configure] in the words of the specification: supplied fields replace
    the stored ones, the others stay. *)
Definition spec_configure (this : SemanticSearch) (options : value) : SemanticSearch :=
  {| endpoint := default (endpoint this) (supplied options "endpoint");
     readerKey := default (readerKey this) (supplied options "readerKey") |}.

(** The default record of [_normalizeResult]. *)
Definition default_result : normalized :=
  {| title := VStr "Untitled"; url := VStr "#"; excerpt := VStr "" |}.

(** An item with none of the fields [_normalizeResult] looks at: anything
    that is not an object, or an object without them. *)
Definition featureless (item : value) : Prop :=
  match item with
  | VObj props =>
      props !! "document" = None /\ props !! "metadata" = None /\
      props !! "title" = None /\ props !! "url" = None /\ props !! "excerpt" = None
  | _ => True
  end.

(** ** Invariants and schedules of the bound search box *)

(** The timer table and the variable [debounceTimer] agree: a pending
    timeout is the one the variable names, and the variable names an id
    that was handed out. *)
Definition timers_wf (s : page) : Prop :=
  (forall id tm, timers s !! id = Some tm -> debounceTimer s = Some id) /\
  (forall id, debounceTimer s = Some id -> (id < next_timer s)%nat).

(** The current entry of the session history exists. *)
Definition window_wf (w : window) : Prop :=
  (current w < length (entries w))%nat.


Definition input_at (e : Z * string) : Z * event := (e.1, input e.2).

(** The record of the call [self.search(query, { limit: ... })] that
    [doSearch] makes. *)
Definition call_of {platform : Platform} (self : SemanticSearch) (opts : options) (query : string)
  : search_call :=
  let lim := num_or (limit opts) 10 in
  let r := search self query (Some (mkOptions (Some lim) None None None None)) in
  mkCall query lim r.1 r.2.

(** The result container as the [input] listener leaves it for a short
    query. *)
Definition cleared : element := {| innerHTML := ""; display := "none" |}.

(** An excerpt of 150 characters and one of 90, for the examples. *)
Definition long_excerpt : string := String.concat "" (replicate 30 "abcde").
Definition short_excerpt : string := String.concat "" (replicate 18 "abcde").

(** A page for the examples. Its URL parser accepts the plain absolute
    [https] URLs, which every URL parser accepts: a host of lower-case
    letters and dots that starts with a letter, and after it nothing or a
    path of lower-case letters, digits, dots, hyphens and slashes. It
    accepts nothing else. *)
Definition is_lower (c : ascii) : bool :=
  let n := nat_of_ascii c in (97 <=? n)%nat && (n <=? 122)%nat.

Definition is_path_char (c : ascii) : bool :=
  let n := nat_of_ascii c in
  is_lower c || ((45 <=? n)%nat && (n <=? 57)%nat).

Fixpoint is_host_and_path (s : string) : bool :=
  match s with
  | String c s' =>
      if Ascii.eqb c "/" then forallb is_path_char (String.list_ascii_of_string s')
      else (is_lower c || Ascii.eqb c ".") && is_host_and_path s'
  | EmptyString => true
  end.

Definition example_platform : Platform :=
  {| parses_as_url url :=
       String.prefix "https://" url &&
       match string_drop 8 url with
       | String c rest => is_lower c && is_host_and_path rest
       | EmptyString => false
       end |}.

(** A configured client, a window without the [q] parameter and the page
    that [bindSearchBox] makes of it, for the examples. *)
Definition example_client : SemanticSearch :=
  {| endpoint := VStr "https://search.example"; readerKey := VUndefined |}.

Definition example_window : window :=
  {| entries := [ {| url_rest := "https://blog.example/"; searchParams := [] |} ];
     current := 0 |}.

Definition example_page (value : string) : page :=
  mkPage 0 value cleared None ∅ 0 example_window [].

(** ** Notions for the further properties *)

(** The client as [search] needs it to get as far as [xhr.send]: an endpoint
    is set, followed by [/v1/search] it parses as a URL, and the reader key,
    if one is set, makes an [Authorization] value that the request object
    accepts. *)
Definition sendable {platform : Platform} (self : SemanticSearch) : Prop :=
  truthy (endpoint self) = true /\
  (exists base, ToString (endpoint self) = Ok base /\
                parses_as_url (base +:+ "/v1/search") = true) /\
  (truthy (readerKey self) = true ->
     exists key, ToString (readerKey self) = Ok key /\
                 is_header_value ("Bearer " +:+ key) = true).

(** The markup of one result: the list element with its link and what
    follows the link. *)
Definition list_item (u t p : string) : string :=
  "<li class=" +:+ quoted "semantic-search-result-item" +:+ ">"
  +:+ "<a href=" +:+ quoted u +:+ " class=" +:+ quoted "semantic-search-result-link"
  +:+ ">" +:+ t +:+ "</a>"
  +:+ p
  +:+ "</li>".

(** The excerpt paragraph around the shortened excerpt. *)
Definition excerpt_paragraph (short : string) : string :=
  "<p class=" +:+ quoted "semantic-search-result-excerpt" +:+ ">" +:+ short +:+ "</p>".

(** [null] and [undefined], the two values whose properties cannot be read. *)
Definition nullish (v : value) : bool :=
  match v with
  | VUndefined | VNull => true
  | _ => false
  end.

(** The object [{ title, url, excerpt }] that [_normalizeResult] returns,
    as a value that can be passed to it again. *)
Definition as_item (r : normalized) : value :=
  VObj {[ "title" := title r; "url" := url r; "excerpt" := excerpt r ]}.

(** A [readystatechange] event before the request is DONE. *)
Definition before_done (ev : xhr_event) : Prop :=
  match ev with
  | readystatechange readyState _ _ => readyState <> 4%Z
  | error => False
  end.

(** Input events given by their time and the value of the field, each more
    than [d] ms after the one before. *)
Definition separated (d : Z) (evs : list (Z * string)) : Prop :=
  forall i a b, evs !! i = Some a -> evs !! S i = Some b ->
    (a.1 + d < b.1)%Z.

(** A query that passes the length guard of the listeners. *)
Definition long_enough (opts : options) (query : string) : Prop :=
  (min_length opts <= Z.of_nat (String.length query))%Z.

(** Every pending timeout holds a query that passed the length guard. *)
Definition timers_long (opts : options) (s : page) : Prop :=
  forall id tm, timers s !! id = Some tm -> long_enough opts (timer_query tm).

(** ** Properties: configuration and search *)

Section Properties.

(** The page the module runs in. *)
Context {platform : Platform}.

Lemma bind_ok {A B} (a : A) (f : A -> result B) : Ok a ≫= f = f a.
Proof. reflexivity. Qed.

Lemma truthy_or (a b : value) :
  Ok a ||| Ok b = Ok (if truthy a then a else b).
Proof. unfold or_. simpl. by destruct (truthy a). Qed.

Lemma get_object (props : gmap string value) (k : string) :
  get (VObj props) k = Ok (default VUndefined (props !! k)).
Proof. reflexivity. Qed.

Lemma in_success_range (status : Z) :
  (200 <= status < 300)%Z -> (200 <=? status)%Z && (status <? 300)%Z = true.
Proof. intros [H1 H2]. apply andb_true_iff. split; [by apply Z.leb_le | by apply Z.ltb_lt]. Qed.

Lemma out_of_success_range (status : Z) :
  (status < 200 \/ 300 <= status)%Z -> (200 <=? status)%Z && (status <? 300)%Z = false.
Proof.
  intros H. apply andb_false_iff.
  destruct H as [H | H]; [left; by apply Z.leb_gt | right; by apply Z.ltb_ge].
Qed.

(** Numbers as string concatenation prints them: digit by digit up to
    2^53, with the digits that tell the double apart above it, and in the
    exponent form from 1e21 on. *)
Example string_of_Z_examples :
  string_of_Z 0 = "0" /\ string_of_Z (-404) = "-404" /\
  string_of_Z (2 ^ 53) = "9007199254740992" /\
  string_of_Z (2 ^ 64) = "18446744073709552000" /\
  string_of_Z (10 ^ 21) = "1e+21" /\
  string_of_Z (2 ^ 70) = "1.1805916207174113e+21" /\
  string_of_Z (- 2 ^ 100) = "-1.2676506002282294e+30".
Proof. repeat split; vm_compute; reflexivity. Qed.

(** The exchange ends in the DONE handler: the earlier states are ignored. *)
Lemma settle_response (status : Z) (body : option value) (p : promise) :
  settle (response_events status body) p = onreadystatechange 4 status body p.
Proof. reflexivity. Qed.

(** What a parsed body of a successful response resolves to. *)
Lemma onreadystatechange_success (status : Z) (response : value) :
  (200 <= status < 300)%Z ->
  onreadystatechange 4 status (Some response) Pending =
    match get response "results" with
    | Ok results =>
        Resolved (if truthy results then results
                  else if truthy response then response else VArr [])
    | Throw _ => Rejected (Error "Failed to parse response")
    end.
Proof.
  intros Hs. unfold onreadystatechange. simpl (4 =? 4)%Z. cbv iota.
  rewrite (in_success_range _ Hs).
  destruct (get response "results") as [results | e] eqn:Hget; [| reflexivity].
  rewrite !truthy_or. simpl.
  destruct (truthy results) eqn:Hr; [by rewrite Hr |].
  by destruct (truthy response).
Qed.

(** C1, as the claim states it, fails: a body that is neither an object with
    [results] nor an array, here the object with the one field [foo], makes
    the search resolve with that body and not with an empty list. *)
Lemma search_other_shape_not_empty :
  let body := VObj {[ "foo" := VNum 1 ]} in
  get body "results" = Ok VUndefined /\
  settle (response_events 200 (Some body)) Pending = Resolved body /\
  Resolved body <> Resolved (VArr []).
Proof.
  split; [reflexivity | split]; [vm_compute; reflexivity | discriminate].
Qed.

(** C1 (amended): for a response with status in [200,300) whose body parses
    to [response], the search resolves with [response.results] when that is
    truthy (an array always is); otherwise with [response] itself when it is
    truthy (a bare array, but also any other object, non-zero number or
    non-empty string); and with the empty list when [response] is [false],
    [0] or the empty string. *)
Theorem search_success_resolution (status : Z) (response : value) :
  (200 <= status < 300)%Z ->
  let outcome := settle (response_events status (Some response)) Pending in
  (forall elems, get response "results" = Ok (VArr elems) -> outcome = Resolved (VArr elems)) /\
  (forall results, get response "results" = Ok results -> truthy results = true ->
     outcome = Resolved results) /\
  (forall elems, response = VArr elems -> outcome = Resolved (VArr elems)) /\
  (forall results, get response "results" = Ok results -> truthy results = false ->
     truthy response = true -> outcome = Resolved response) /\
  (truthy response = false -> response <> VNull -> response <> VUndefined ->
     outcome = Resolved (VArr [])).
Proof.
  intros Hs outcome. subst outcome.
  rewrite settle_response, (onreadystatechange_success _ _ Hs).
  repeat split.
  - intros elems ->. reflexivity.
  - intros results -> ->. reflexivity.
  - intros elems ->. reflexivity.
  - intros results -> -> ->. reflexivity.
  - intros Hf Hn Hu. destruct response; try done; simpl in *; by rewrite ?Hf.
Qed.

(** The theorem at a response [{results: [7]}] with status 200. *)
Lemma search_success_resolution_witness :
  (200 <= 200 < 300)%Z /\
  settle (response_events 200 (Some (VObj {[ "results" := VArr [VNum 7] ]}))) Pending
  = Resolved (VArr [VNum 7]).
Proof.
  assert (Hs : (200 <= 200 < 300)%Z) by lia.
  split; [exact Hs |].
  destruct (search_success_resolution 200 (VObj {[ "results" := VArr [VNum 7] ]}) Hs)
    as [Harr _].
  apply Harr. vm_compute. reflexivity.
Defined.

(** Without an endpoint the executor rejects at once and sends nothing. *)
Lemma search_without_endpoint (self : SemanticSearch) (query : string) (opts : option options) :
  truthy (endpoint self) = false ->
  search self query opts =
    (Rejected (Error "SemanticSearch endpoint not configured"), None).
Proof. intros H. unfold search. by rewrite H. Qed.

(** A status outside [200,300) rejects with the message that carries it. *)
Lemma search_http_error (status : Z) (body : option value) :
  (status < 200 \/ 300 <= status)%Z ->
  settle (response_events status body) Pending =
    Rejected (Error ("Search failed: " +:+ string_of_Z status)).
Proof.
  intros H. rewrite settle_response. unfold onreadystatechange. simpl (4 =? 4)%Z.
  cbv iota. by rewrite (out_of_success_range _ H).
Qed.

(** The [error] listener on a promise that is still pending. *)
Lemma onerror_pending : onerror Pending = Rejected (Error "Network error").
Proof. reflexivity. Qed.

(** C6: the code misses the last part of the claim. When the transport
    fails, the request object first fires [readystatechange] in state DONE
    with status 0, which the listener takes for an HTTP failure and rejects
    with [Search failed: 0]; the [error] listener runs next and its
    [Network error] rejection finds the promise settled. The other two parts
    hold: [search_without_endpoint] and [search_http_error]. *)
Theorem search_network_error_reports_status_0 :
  onreadystatechange 4 0 None Pending = Rejected (Error "Search failed: 0") /\
  settle network_error_events Pending = Rejected (Error "Search failed: 0") /\
  Rejected (Error "Search failed: 0") <> Rejected (Error "Network error").
Proof. split; [reflexivity | split; [reflexivity | discriminate]]. Qed.

(** C8, as the claim states it, fails: an endpoint supplied as the empty
    string is not stored; the configured one stays. *)
Lemma configure_keeps_endpoint_on_empty_string :
  let this := {| endpoint := VStr "https://a"; readerKey := VUndefined |} in
  let options := VObj {[ "endpoint" := VStr "" ]} in
  supplied options "endpoint" = Some (VStr "") /\
  configure this options = Ok this /\
  endpoint (spec_configure this options) = VStr "" /\
  endpoint this <> endpoint (spec_configure this options).
Proof.
  split; [reflexivity | split; [reflexivity | split; [reflexivity |]]].
  vm_compute. discriminate.
Qed.

Lemma configure_object (this : SemanticSearch) (props : gmap string value) :
  configure this (VObj props) =
    Ok {| endpoint := (let e := default VUndefined (props !! "endpoint") in
                       if truthy e then e else endpoint this);
          readerKey := (let r := default VUndefined (props !! "readerKey") in
                        if truthy r then r else readerKey this) |}.
Proof. unfold configure. rewrite !get_object, !truthy_or. reflexivity. Qed.

(** C8 (amended): [configure(options)] stores a supplied [endpoint] or
    [readerKey] when it is truthy, whatever its type (nothing else is
    checked); a field that is not supplied, or supplied as a falsy value
    such as the empty string, leaves the stored one unchanged. *)
Theorem configure_merge (this : SemanticSearch) (props : gmap string value) :
  exists this', configure this (VObj props) = Ok this' /\
    (forall v, props !! "endpoint" = Some v -> truthy v = true -> endpoint this' = v) /\
    (forall v, props !! "endpoint" = Some v -> truthy v = false ->
       endpoint this' = endpoint this) /\
    (props !! "endpoint" = None -> endpoint this' = endpoint this) /\
    (forall v, props !! "readerKey" = Some v -> truthy v = true -> readerKey this' = v) /\
    (forall v, props !! "readerKey" = Some v -> truthy v = false ->
       readerKey this' = readerKey this) /\
    (props !! "readerKey" = None -> readerKey this' = readerKey this).
Proof.
  eexists. split; [apply configure_object |]. simpl.
  repeat split.
  - intros v -> Hv. simpl. by rewrite Hv.
  - intros v -> Hv. simpl. by rewrite Hv.
  - intros ->. reflexivity.
  - intros v -> Hv. simpl. by rewrite Hv.
  - intros v -> Hv. simpl. by rewrite Hv.
  - intros ->. reflexivity.
Qed.

(** Where every supplied field is truthy, the code does what the
    specification says. *)
Lemma configure_agrees_with_spec (this : SemanticSearch) (props : gmap string value) :
  (forall k v, supplied (VObj props) k = Some v -> truthy v = true) ->
  configure this (VObj props) = Ok (spec_configure this (VObj props)).
Proof.
  intros Hs. rewrite configure_object. unfold spec_configure. f_equal.
  assert (Hfield : forall k old,
    (let x := default VUndefined (props !! k) in if truthy x then x else old)
    = default old (supplied (VObj props) k)).
  { intros k old. specialize (Hs k). simpl in *.
    destruct (props !! k) as [v |]; [| reflexivity].
    destruct v; simpl in *; try reflexivity;
      pose proof (Hs _ eq_refl) as Ht; simpl in Ht; by rewrite ?Ht. }
  by rewrite !Hfield.
Qed.

(** [configure] of [undefined] throws and of a primitive changes nothing. *)
Lemma configure_not_an_object (this : SemanticSearch) :
  configure this VUndefined = Throw TypeError /\
  configure this VNull = Throw TypeError /\
  forall n, configure this (VNum n) = Ok this.
Proof. split; [reflexivity | split; [reflexivity |]]. intros n. by destruct this. Qed.

(** [search] up to [send], step by step. *)
Lemma search_steps (self : SemanticSearch) (query : string) (opts : option options)
  (base : string) :
  truthy (endpoint self) = true -> ToString (endpoint self) = Ok base ->
  search self query opts =
    let body := VObj {[ "query" := VStr query;
                        "limit" := VNum (num_or (limit (default no_options opts)) 10) ]} in
    let content := ("Content-Type", "application/json") in
    if parses_as_url (base +:+ "/v1/search") then
      if truthy (readerKey self) then
        match ToString (readerKey self) with
        | Ok key =>
            if is_header_value ("Bearer " +:+ key)
            then (Pending,
                  Some (mkRequest "POST" (base +:+ "/v1/search")
                          [content; ("Authorization", "Bearer " +:+ key)] body))
            else (Rejected (DOMException "SyntaxError"), None)
        | Throw e => (Rejected e, None)
        end
      else (Pending, Some (mkRequest "POST" (base +:+ "/v1/search") [content] body))
    else (Rejected (DOMException "SyntaxError"), None).
Proof.
  intros He Hb. unfold search, xhr_open. rewrite He, Hb. simpl negb. cbv iota.
  rewrite bind_ok.
  destruct (parses_as_url (base +:+ "/v1/search")); [| reflexivity].
  rewrite !bind_ok.
  change (xhr_setRequestHeader "Content-Type" "application/json")
    with (Ok (A := string * string) ("Content-Type", "application/json")).
  rewrite bind_ok.
  destruct (truthy (readerKey self)); [| reflexivity].
  destruct (ToString (readerKey self)) as [key | e]; [| reflexivity].
  rewrite bind_ok. unfold xhr_setRequestHeader.
  by destruct (is_header_value ("Bearer " +:+ key)).
Qed.

(** A request goes out exactly from a client that is [sendable]. *)
Lemma search_sends_request (self : SemanticSearch) (query : string) (opts : option options) :
  sendable self <-> exists r, search self query opts = (Pending, Some r).
Proof.
  split.
  - intros (He & (base & Hb & Hparse) & Hkey).
    rewrite (search_steps _ _ _ _ He Hb). cbv zeta. rewrite Hparse.
    destruct (truthy (readerKey self)) eqn:Hk; [| eauto].
    destruct (Hkey eq_refl) as (key & -> & ->). eauto.
  - intros [r Hr].
    destruct (truthy (endpoint self)) eqn:He;
      [| by rewrite (search_without_endpoint _ _ _ He) in Hr].
    destruct (ToString (endpoint self)) as [base | e] eqn:Hb.
    + rewrite (search_steps _ _ _ _ He Hb) in Hr. cbv zeta in Hr.
      destruct (parses_as_url (base +:+ "/v1/search")) eqn:Hparse; [| discriminate].
      split; [exact He |]. split; [eauto |].
      intros Hk. rewrite Hk in Hr.
      destruct (ToString (readerKey self)) as [key | e]; [| discriminate].
      destruct (is_header_value ("Bearer " +:+ key)) eqn:Hv; [eauto | discriminate].
    + unfold search in Hr. rewrite He, Hb in Hr. discriminate.
Qed.

(** The body of a request that went out. *)
Lemma search_body (self : SemanticSearch) (query : string) (opts : option options)
  (p : promise) (r : request) :
  search self query opts = (p, Some r) ->
  req_body r = VObj {[ "query" := VStr query;
                       "limit" := VNum (num_or (limit (default no_options opts)) 10) ]}.
Proof.
  intros Hr.
  destruct (truthy (endpoint self)) eqn:He;
    [| by rewrite (search_without_endpoint _ _ _ He) in Hr].
  destruct (ToString (endpoint self)) as [base | e] eqn:Hb;
    [| unfold search in Hr; rewrite He, Hb in Hr; discriminate].
  rewrite (search_steps _ _ _ _ He Hb) in Hr. cbv zeta in Hr.
  repeat match type of Hr with
         | context [if ?c then _ else _] => destruct c
         | context [match ?c with Ok _ => _ | Throw _ => _ end] => destruct c
         end; try discriminate; by injection Hr as _ <-.
Qed.

(** C10: a client with an endpoint that, followed by [/v1/search], parses
    as a URL, and with no reader key or one that makes a header value,
    posts a request on every call of [search] (and no other client posts
    one). The body is the object with exactly the two fields [query] and
    [limit]: [query] is the argument as passed, and [limit] is
    [options.limit] when that is truthy and 10 otherwise, so for a limit of
    0, an absent limit and an absent [options] alike. *)
Theorem search_request_body (self : SemanticSearch) (query : string)
  (opts : option options) :
  (sendable self ->
   exists r props lim,
     search self query opts = (Pending, Some r) /\
     req_body r = VObj props /\
     dom props = ({[ "query"; "limit" ]} : gset string) /\
     props !! "query" = Some (VStr query) /\
     props !! "limit" = Some (VNum lim) /\
     (forall o n, opts = Some o -> limit o = Some n -> n <> 0%Z -> lim = n) /\
     (forall o, opts = Some o -> limit o = Some 0%Z -> lim = 10%Z) /\
     (forall o, opts = Some o -> limit o = None -> lim = 10%Z) /\
     (opts = None -> lim = 10%Z)) /\
  (forall p r, search self query opts = (p, Some r) -> sendable self).
Proof.
  split.
  - intros Hsend.
    destruct (proj1 (search_sends_request self query opts) Hsend) as [r Hr].
    exists r, {[ "query" := VStr query;
                 "limit" := VNum (num_or (limit (default no_options opts)) 10) ]},
           (num_or (limit (default no_options opts)) 10).
    split; [exact Hr |]. split; [exact (search_body _ _ _ _ _ Hr) |].
    split; [| split; [| split]].
    + rewrite dom_insert_L, dom_singleton_L. reflexivity.
    + by rewrite lookup_insert_eq.
    + rewrite lookup_insert_ne by done. by rewrite lookup_singleton_eq.
    + repeat split.
      * intros o n -> Hl Hn. simpl. rewrite Hl. simpl.
        destruct (n =? 0)%Z eqn:E; [apply Z.eqb_eq in E; contradiction | reflexivity].
      * intros o -> Hl. simpl. by rewrite Hl.
      * intros o -> Hl. simpl. by rewrite Hl.
      * intros ->. reflexivity.
  - intros p r Hr.
    apply (proj2 (search_sends_request self query opts)).
    destruct (truthy (endpoint self)) eqn:He;
      [| by rewrite (search_without_endpoint _ _ _ He) in Hr].
    destruct (ToString (endpoint self)) as [base | e] eqn:Hb;
      [| unfold search in Hr; rewrite He, Hb in Hr; discriminate].
    rewrite (search_steps _ _ _ _ He Hb) in Hr |- *. cbv zeta in Hr |- *.
    repeat match type of Hr with
           | context [if ?c then _ else _] => destruct c
           | context [match ?c with Ok _ => _ | Throw _ => _ end] => destruct c
           end; try discriminate; eauto.
Qed.

(** ** Properties: strings *)

Lemma append_cons (x : ascii) (a b : string) : String x a +:+ b = String x (a +:+ b).
Proof. reflexivity. Qed.

Lemma append_assoc (a b c : string) : (a +:+ b) +:+ c = a +:+ (b +:+ c).
Proof.
  induction a as [| x a IH]; [reflexivity |]. by rewrite !append_cons, IH.
Qed.

Lemma append_empty_r (a : string) : a +:+ "" = a.
Proof.
  induction a as [| x a IH]; [reflexivity |]. by rewrite append_cons, IH.
Qed.

Lemma string_take_all (n : nat) (s : string) :
  (String.length s <= n)%nat -> string_take n s = s.
Proof.
  revert n. induction s as [| c s IH]; intros n Hn; destruct n; simpl in *;
    try reflexivity; [lia | rewrite IH; [reflexivity | lia]].
Qed.

Lemma string_take_length (n : nat) (s : string) :
  (n <= String.length s)%nat -> String.length (string_take n s) = n.
Proof.
  revert n. induction s as [| c s IH]; intros n Hn; destruct n; simpl in *;
    try reflexivity; [lia | rewrite IH; [reflexivity | lia]].
Qed.

Lemma string_take_drop (n : nat) (s : string) : string_take n s +:+ string_drop n s = s.
Proof.
  revert n. induction s as [| c s IH]; intros n; destruct n; simpl;
    try reflexivity. by rewrite append_cons, IH.
Qed.

(** [substring(0, n)] is the first [n] code units, or the whole string. *)
Lemma substring_from_start (s : string) (n : nat) : substring s 0 n = string_take n s.
Proof.
  unfold substring. rewrite Nat.min_0_l, Nat.max_0_l, Nat.sub_0_r. simpl.
  destruct (Nat.le_ge_cases n (String.length s)) as [H | H].
  - by rewrite Nat.min_l.
  - rewrite Nat.min_r by done. by rewrite !string_take_all.
Qed.

(** ** Properties: normalisation *)

Lemma get_truthy (o : value) (k : string) : truthy o = true -> get o k = Ok (peek o k).
Proof. unfold peek. by destruct o. Qed.

(** A falsy value has no truthy property. *)
Lemma peek_falsy (o : value) (k : string) : truthy o = false -> truthy (peek o k) = false.
Proof.
  unfold peek. destruct o as [| | b | n | s | l | m]; simpl; try done.
  destruct (String.eqb k "length"); [| done].
  destruct s; [done | by simpl].
Qed.

Lemma first_truthy_skip (v : value) (rest : list value) (dflt : value) :
  truthy v = false -> first_truthy (v :: rest) dflt = first_truthy rest dflt.
Proof. intros H. simpl. by rewrite H. Qed.

Lemma first_truthy_take (v : value) (rest : list value) (dflt : value) :
  truthy v = true -> first_truthy (v :: rest) dflt = v.
Proof. intros H. simpl. by rewrite H. Qed.

Lemma or_assoc (a b c : result value) : a ||| b ||| c = a ||| (b ||| c).
Proof.
  destruct a as [x | e]; [| reflexivity]. unfold or_ at 2 3. simpl.
  destruct (truthy x) eqn:Hx; [| reflexivity]. unfold or_. simpl. by rewrite Hx.
Qed.

(** [o && o.k || rest]: the property when it is truthy, else the rest. *)
Lemma guarded_or (o : value) (k : string) (rest : result value) :
  Ok o &&& get o k ||| rest = if truthy (peek o k) then Ok (peek o k) else rest.
Proof.
  unfold and_, or_. simpl. destruct (truthy o) eqn:Ho.
  - rewrite (get_truthy _ _ Ho). reflexivity.
  - simpl. by rewrite Ho, (peek_falsy _ k Ho).
Qed.

(** [o && o.k ? o.k : rest] *)
Lemma guarded_cond (o : value) (k : string) (rest : result value) :
  cond (Ok o &&& get o k) (get o k) rest
  = if truthy (peek o k) then Ok (peek o k) else rest.
Proof.
  unfold cond, and_. simpl. destruct (truthy o) eqn:Ho.
  - rewrite (get_truthy _ _ Ho). simpl. by destruct (truthy (peek o k)).
  - simpl. by rewrite Ho, (peek_falsy _ k Ho).
Qed.

(** One field of the result, given the metadata object and the document. *)
Lemma field_chain (m d i : value) (f : string) (dflt : value) :
  Ok m &&& get m f ||| Ok d &&& get d f ||| Ok i &&& get i f ||| Ok dflt
  = Ok (first_truthy [peek m f; peek d f; peek i f] dflt).
Proof.
  rewrite !or_assoc, !guarded_or. simpl.
  destruct (truthy (peek m f)); [reflexivity |].
  destruct (truthy (peek d f)); [reflexivity |].
  by destruct (truthy (peek i f)).
Qed.

(** The document and the metadata object that [_normalizeResult] settles on. *)
Lemma normalize_steps (item : value) :
  _normalizeResult item =
    let doc := if truthy (peek item "document") then peek item "document" else item in
    let metadata :=
      if truthy (peek doc "metadata") then peek doc "metadata"
      else if truthy (peek item "metadata") then peek item "metadata" else VObj ∅ in
    Ok {| title := first_truthy [peek metadata "title"; peek doc "title"; peek item "title"]
                     (VStr "Untitled");
          url := first_truthy [peek metadata "url"; peek doc "url"; peek item "url"]
                   (VStr "#");
          excerpt := first_truthy
                       [peek metadata "excerpt"; peek doc "excerpt"; peek item "excerpt"]
                       (VStr "") |}.
Proof.
  unfold _normalizeResult. rewrite (guarded_cond item "document").
  assert (Hdoc : (if truthy (peek item "document")
                  then Ok (peek item "document") else Ok item)
                 = Ok (if truthy (peek item "document")
                       then peek item "document" else item))
    by (by destruct (truthy (peek item "document"))).
  rewrite Hdoc, bind_ok.
  set (doc := if truthy (peek item "document") then peek item "document" else item).
  rewrite !guarded_cond.
  assert (Hmeta : (if truthy (peek doc "metadata") then Ok (peek doc "metadata")
                   else if truthy (peek item "metadata")
                        then Ok (peek item "metadata") else Ok (VObj ∅))
                  = Ok (if truthy (peek doc "metadata") then peek doc "metadata"
                        else if truthy (peek item "metadata")
                             then peek item "metadata" else VObj ∅)).
  { destruct (truthy (peek doc "metadata")); [reflexivity |].
    by destruct (truthy (peek item "metadata")). }
  rewrite Hmeta, bind_ok, !field_chain, !bind_ok. reflexivity.
Qed.

(** The chain of [normalize_steps], told from the item alone. *)
Lemma chain_chosen (item : value) (f : string) (dflt : value) :
  let doc := if truthy (peek item "document") then peek item "document" else item in
  let metadata :=
    if truthy (peek doc "metadata") then peek doc "metadata"
    else if truthy (peek item "metadata") then peek item "metadata" else VObj ∅ in
  first_truthy [peek metadata f; peek doc f; peek item f] dflt = chosen_field item f dflt.
Proof.
  intros doc metadata. subst doc metadata. unfold chosen_field.
  assert (Hempty : truthy (peek (VObj ∅) f) = false) by reflexivity.
  destruct (truthy (peek item "document")) eqn:Hdoc.
  - destruct (truthy (peek (peek item "document") "metadata")) eqn:Hnested;
      [reflexivity |].
    destruct (truthy (peek item "metadata")) eqn:Him; [reflexivity |].
    cbv iota.
    rewrite (first_truthy_skip (peek (VObj ∅) f)) by exact Hempty.
    by rewrite (first_truthy_skip (peek (peek item "metadata") f))
      by (by apply peek_falsy).
  - rewrite (peek_falsy _ "metadata" Hdoc). cbv iota.
    pose proof (peek_falsy _ f Hdoc) as Hdf.
    destruct (truthy (peek item "metadata")) eqn:Him.
    + destruct (truthy (peek (peek item "metadata") f)) eqn:Hm.
      * by rewrite !first_truthy_take.
      * rewrite !(first_truthy_skip (peek (peek item "metadata") f)) by exact Hm.
        rewrite (first_truthy_skip (peek (peek item "document") f)) by exact Hdf.
        simpl. by destruct (truthy (peek item f)).
    + rewrite (first_truthy_skip (peek (VObj ∅) f)) by exact Hempty.
      rewrite (first_truthy_skip (peek (peek item "metadata") f))
        by (by apply peek_falsy).
      rewrite (first_truthy_skip (peek (peek item "document") f)) by exact Hdf.
      simpl. by destruct (truthy (peek item f)).
Qed.

Lemma normalize_chosen (item : value) :
  _normalizeResult item =
    Ok {| title := chosen_field item "title" (VStr "Untitled");
          url := chosen_field item "url" (VStr "#");
          excerpt := chosen_field item "excerpt" (VStr "") |}.
Proof.
  rewrite normalize_steps. cbv zeta.
  by rewrite (chain_chosen item "title"), (chain_chosen item "url"),
             (chain_chosen item "excerpt").
Qed.

(** C2, as the claim states it, fails: when [item.document] has a metadata
    object, [item.metadata] is never read. Here the title is only in
    [item.metadata]; the chain of the specification finds it, the code
    returns the default. *)
Lemma normalize_skips_item_metadata :
  let item := VObj {[ "document" := VObj {[ "metadata" := VObj {[ "url" := VStr "u" ]} ]};
                      "metadata" := VObj {[ "title" := VStr "T" ]} ]} in
  _normalizeResult item = Ok {| title := VStr "Untitled"; url := VStr "u"; excerpt := VStr "" |} /\
  spec_normalize item = {| title := VStr "T"; url := VStr "u"; excerpt := VStr "" |} /\
  VStr "Untitled" <> VStr "T".
Proof.
  split; [vm_compute; reflexivity | split; [vm_compute; reflexivity | discriminate]].
Qed.

(** C2 (amended): each of the three fields is resolved on its own through
    one chain, in which the metadata object is chosen once per item:
    [item.document.metadata.<field>] when [item.document] has a truthy
    metadata object, and only otherwise [item.metadata.<field>]; then
    [item.document.<field>]; then [item.<field>]; then the default. A step
    is taken when its value is truthy, so an empty string counts as missing. *)
Theorem normalize_precedence (item : value) :
  _normalizeResult item =
    Ok {| title := chosen_field item "title" (VStr "Untitled");
          url := chosen_field item "url" (VStr "#");
          excerpt := chosen_field item "excerpt" (VStr "") |}.
Proof. apply normalize_chosen. Qed.

(** The chain of the code is the chain of the specification unless the item
    has a metadata object both under [document] and at the top. *)
Lemma chosen_field_spec (item : value) (f : string) (dflt : value) :
  truthy (peek (peek item "document") "metadata") = false \/
  truthy (peek item "metadata") = false ->
  chosen_field item f dflt = spec_field item f dflt.
Proof.
  unfold chosen_field, spec_field. intros [Hn | Hm].
  - rewrite Hn. by rewrite (first_truthy_skip (peek (peek (peek item "document") "metadata") f))
      by (by apply peek_falsy).
  - destruct (truthy (peek (peek item "document") "metadata")) eqn:Hn.
    + destruct (truthy (peek (peek (peek item "document") "metadata") f)) eqn:Hf.
      * by rewrite !first_truthy_take.
      * rewrite !(first_truthy_skip (peek (peek (peek item "document") "metadata") f))
          by exact Hf.
        by rewrite (first_truthy_skip (peek (peek item "metadata") f))
          by (by apply peek_falsy).
    + by rewrite (first_truthy_skip (peek (peek (peek item "document") "metadata") f))
        by (by apply peek_falsy).
Qed.

Lemma normalize_agrees_with_spec (item : value) :
  truthy (peek (peek item "document") "metadata") = false \/
  truthy (peek item "metadata") = false ->
  _normalizeResult item = Ok (spec_normalize item).
Proof.
  intros H. rewrite normalize_chosen. unfold spec_normalize.
  by rewrite !(chosen_field_spec item _ _ H).
Qed.

(** The examples of the specification: the nested title wins over the flat
    one; a flat title alone is used; one field may come from the metadata
    and another from a flat field of the same item. *)
Example normalize_nested_title_wins :
  _normalizeResult
    (VObj {[ "document" := VObj {[ "metadata" := VObj {[ "title" := VStr "nested" ]} ]};
             "title" := VStr "flat"; "url" := VStr "/flat" ]})
  = Ok {| title := VStr "nested"; url := VStr "/flat"; excerpt := VStr "" |}.
Proof. vm_compute. reflexivity. Qed.

Example normalize_flat_title :
  _normalizeResult (VObj {[ "title" := VStr "flat" ]})
  = Ok {| title := VStr "flat"; url := VStr "#"; excerpt := VStr "" |}.
Proof. vm_compute. reflexivity. Qed.

(** The plain copy differs: it throws on a [null] result, and shows the id
    of the document where the other copies show the default title. *)
Example plain_resolve_null :
  Plain.resolve VNull = Throw TypeError /\ _normalizeResult VNull = Ok default_result.
Proof. split; reflexivity. Qed.

Example plain_resolve_document_id :
  let item := VObj {[ "document" := VObj {[ "id" := VStr "doc-1" ]} ]} in
  Plain.resolve item = Ok {| title := VStr "doc-1"; url := VStr "#"; excerpt := VStr "" |} /\
  _normalizeResult item = Ok default_result.
Proof. split; vm_compute; reflexivity. Qed.

(** A featureless item reads as [undefined] at every name the chain uses. *)
Lemma featureless_peek (item : value) (k : string) :
  featureless item ->
  k ∈ ["document"; "metadata"; "title"; "url"; "excerpt"] ->
  peek item k = VUndefined.
Proof.
  intros Hf Hk. unfold peek.
  destruct item as [| | b | n | s | l | m]; simpl; try reflexivity.
  - destruct (String.eqb k "length") eqn:E; [| reflexivity].
    apply String.eqb_eq in E. subst k. exfalso.
    repeat (apply elem_of_cons in Hk as [Hk | Hk]; [discriminate |]).
    by apply elem_of_nil in Hk.
  - destruct (String.eqb k "length") eqn:E; [| reflexivity].
    apply String.eqb_eq in E. subst k. exfalso.
    repeat (apply elem_of_cons in Hk as [Hk | Hk]; [discriminate |]).
    by apply elem_of_nil in Hk.
  - destruct Hf as (Hd & Hm & Ht & Hu & He).
    repeat (apply elem_of_cons in Hk as [-> | Hk]; [by rewrite ?Hd, ?Hm, ?Ht, ?Hu, ?He |]).
    by apply elem_of_nil in Hk.
Qed.

Lemma normalize_featureless (item : value) :
  featureless item -> _normalizeResult item = Ok default_result.
Proof.
  intros Hf. rewrite normalize_chosen. unfold chosen_field, default_result.
  rewrite !(featureless_peek item) by (done || (repeat constructor)).
  reflexivity.
Qed.

(** The markup of an item that normalises to the default record. *)
Lemma render_item_featureless (item : value) (opts : options) :
  featureless item ->
  render_item item opts =
    Ok ("<li class=" +:+ quoted "semantic-search-result-item" +:+ ">"
        +:+ "<a href=" +:+ quoted "#" +:+ " class=" +:+ quoted "semantic-search-result-link"
        +:+ ">" +:+ "Untitled" +:+ "</a>" +:+ "" +:+ "</li>").
Proof.
  intros Hf. unfold render_item. rewrite (normalize_featureless _ Hf). reflexivity.
Qed.

Lemma render_items_featureless (items : list value) (opts : options) (html : string) :
  Forall featureless items -> exists out, render_items html items opts = Ok out.
Proof.
  intros Hall. revert html. induction Hall as [| item items Hf _ IH]; intros html.
  - by exists html.
  - simpl. rewrite (render_item_featureless _ _ Hf), bind_ok. apply IH.
Qed.

(** C9, as the claim states it, fails in its last part: an item whose
    excerpt is a number normalises without an exception, and rendering it
    throws, since a number has no [substring]. *)
Lemma render_throws_on_numeric_excerpt :
  let item := VObj {[ "excerpt" := VNum 5 ]} in
  _normalizeResult item = Ok {| title := VStr "Untitled"; url := VStr "#"; excerpt := VNum 5 |} /\
  _renderResults {| innerHTML := ""; display := "none" |} (Some [item]) no_options
  = Throw TypeError.
Proof. split; vm_compute; reflexivity. Qed.

(** C9 (amended): [_normalizeResult] is total: on every item it returns a
    record and never throws; on [null], [undefined] and every other value
    with none of the fields it looks at, that record is the default one; and
    rendering a list of such items never fails. *)
Theorem normalize_total (item : value) (items : list value) (opts : options)
  (container : element) :
  (exists r, _normalizeResult item = Ok r) /\
  _normalizeResult VNull = Ok default_result /\
  _normalizeResult VUndefined = Ok default_result /\
  (featureless item -> _normalizeResult item = Ok default_result) /\
  (Forall featureless items ->
     exists container', _renderResults container (Some items) opts = Ok container').
Proof.
  split; [eexists; apply normalize_chosen |].
  split; [by apply normalize_featureless |].
  split; [by apply normalize_featureless |].
  split; [apply normalize_featureless |].
  intros Hall. unfold _renderResults. destruct items as [| item' items']; [eauto |].
  destruct (render_items_featureless (item' :: items') opts
              ("<ul class=" +:+ quoted "semantic-search-result-list" +:+ ">") Hall)
    as [out Hout].
  rewrite Hout. eauto.
Qed.

(** ** Properties: rendering *)

(** The excerpt paragraph of one item. *)
Lemma shortExcerpt_string (e : string) :
  shortExcerpt (VStr e) =
    Ok (string_take 100 e +:+ (if (100 <? String.length e)%nat then "..." else "")).
Proof. unfold shortExcerpt. by rewrite substring_from_start. Qed.

(** The two excerpts of the specification's example: 150 characters are cut
    to 100 and get the dots, 90 characters stay as they are. *)
Example shortExcerpt_150 :
  String.length long_excerpt = 150%nat /\
  shortExcerpt (VStr long_excerpt)
  = Ok (String.concat "" (replicate 20 "abcde") +:+ "...").
Proof. split; vm_compute; reflexivity. Qed.

Example shortExcerpt_90 :
  String.length short_excerpt = 90%nat /\
  shortExcerpt (VStr short_excerpt) = Ok short_excerpt.
Proof. split; vm_compute; reflexivity. Qed.

(** The markup of an item with a non-empty string as excerpt. *)
Lemma render_item_excerpt (item : value) (opts : options) (n : normalized)
  (e u t : string) :
  _normalizeResult item = Ok n ->
  excerpt n = VStr e -> e <> "" -> showExcerpt opts <> Some false ->
  ToString (url n) = Ok u -> ToString (title n) = Ok t ->
  render_item item opts =
    Ok ("<li class=" +:+ quoted "semantic-search-result-item" +:+ ">"
        +:+ "<a href=" +:+ quoted u +:+ " class=" +:+ quoted "semantic-search-result-link"
        +:+ ">" +:+ t +:+ "</a>"
        +:+ ("<p class=" +:+ quoted "semantic-search-result-excerpt" +:+ ">"
             +:+ (string_take 100 e +:+ (if (100 <? String.length e)%nat then "..." else ""))
             +:+ "</p>")
        +:+ "</li>").
Proof.
  intros Hn He Hne Hshow Hu Ht. unfold render_item, item_markup.
  rewrite Hn, bind_ok, Hu, bind_ok, Ht, bind_ok, He.
  assert (truthy (VStr e) = true) as ->.
  { simpl. apply negb_true_iff. by apply String.eqb_neq. }
  rewrite bool_decide_eq_false_2 by exact Hshow.
  simpl andb. cbv iota. by rewrite shortExcerpt_string, !bind_ok.
Qed.

(** The loop only appends. *)
Lemma render_items_extends (html : string) (results : list value) (opts : options)
  (out : string) :
  render_items html results opts = Ok out -> exists post, out = html +:+ post.
Proof.
  revert html. induction results as [| item rest IH]; intros html H; simpl in H.
  - injection H as <-. exists "". by rewrite append_empty_r.
  - destruct (render_item item opts) as [h | x]; [| discriminate].
    rewrite bind_ok in H. destruct (IH _ H) as [post ->].
    exists (h +:+ post). by rewrite append_assoc.
Qed.

(** The markup of every element is part of the output, in its place. *)
Lemma render_items_middle (html : string) (before after : list value) (item : value)
  (opts : options) (out : string) :
  render_items html (before ++ item :: after) opts = Ok out ->
  exists pre h post, render_item item opts = Ok h /\ out = pre +:+ h +:+ post.
Proof.
  revert html. induction before as [| b before IH]; intros html H; simpl in H.
  - destruct (render_item item opts) as [h | x]; [| discriminate].
    rewrite bind_ok in H. destruct (render_items_extends _ _ _ _ H) as [post ->].
    exists html, h, post. split; [reflexivity | by rewrite append_assoc].
  - destruct (render_item b opts) as [hb | x]; [| discriminate].
    rewrite bind_ok in H. apply (IH _ H).
Qed.

(** The markup of an item is a list element: the link, and after it the
    excerpt paragraph, or nothing when the excerpt is falsy or switched
    off. *)
Lemma render_item_shape (item : value) (opts : options) (h : string) :
  render_item item opts = Ok h ->
  exists n u t p,
    _normalizeResult item = Ok n /\
    ToString (url n) = Ok u /\ ToString (title n) = Ok t /\
    h = list_item u t p /\
    (showExcerpt opts = Some false \/ truthy (excerpt n) = false -> p = "") /\
    (showExcerpt opts <> Some false -> truthy (excerpt n) = true ->
     exists short, shortExcerpt (excerpt n) = Ok short /\ p = excerpt_paragraph short).
Proof.
  unfold render_item, item_markup. rewrite normalize_chosen, bind_ok.
  set (n := {| title := _; url := _; excerpt := _ |}).
  destruct (ToString (url n)) as [u | x] eqn:Hu; [| discriminate]. rewrite bind_ok.
  destruct (ToString (title n)) as [t | x] eqn:Ht; [| discriminate]. rewrite bind_ok.
  destruct (truthy (excerpt n)) eqn:He;
    destruct (decide (showExcerpt opts = Some false)) as [Hs | Hs].
  - rewrite (bool_decide_eq_true_2 _ Hs). simpl. intros [= <-].
    exists n, u, t, "". repeat split; done.
  - rewrite (bool_decide_eq_false_2 _ Hs). simpl andb. cbv iota.
    destruct (shortExcerpt (excerpt n)) as [short | x] eqn:Hshort; [| discriminate].
    rewrite !bind_ok. intros [= <-].
    exists n, u, t, (excerpt_paragraph short). repeat split; try done.
    + intros [H | H]; [done | congruence].
    + intros _ _. by exists short.
  - simpl. intros [= <-]. exists n, u, t, "". repeat split; done.
  - simpl. intros [= <-]. exists n, u, t, "". repeat split; try done. congruence.
Qed.

Lemma foldr_append_app (l1 l2 : list string) :
  foldr String.append "" (l1 ++ l2)%list
  = foldr String.append "" l1 +:+ foldr String.append "" l2.
Proof.
  induction l1 as [| h l1 IH]; [reflexivity |]. simpl. by rewrite IH, append_assoc.
Qed.

(** The loop succeeds when every element has its markup, and strings the
    markups together. *)
Lemma render_items_all (html : string) (results : list value) (opts : options)
  (hs : list string) :
  Forall2 (fun item h => render_item item opts = Ok h) results hs ->
  render_items html results opts = Ok (html +:+ foldr String.append "" hs).
Proof.
  intros Hall. revert html.
  induction Hall as [| item h results hs Hh _ IH]; intros html; simpl.
  - by rewrite append_empty_r.
  - by rewrite Hh, bind_ok, IH, append_assoc.
Qed.

(** C5: a result whose excerpt is a non-empty string, with [showExcerpt]
    not [false], and whose link can be written, is rendered, wherever it
    stands in the list, provided the results around it can be rendered
    too. Its list element ends with an excerpt paragraph that holds the
    first 100 characters of the excerpt followed by three dots when the
    excerpt is longer than 100 characters (a cut by count alone), and the
    excerpt as it is when it has 100 characters or fewer. *)
Theorem excerpt_truncation (container : element) (before after : list value)
  (hs_before hs_after : list string) (item : value) (opts : options)
  (n : normalized) (e u t : string) :
  Forall2 (fun r h => render_item r opts = Ok h) before hs_before ->
  Forall2 (fun r h => render_item r opts = Ok h) after hs_after ->
  _normalizeResult item = Ok n ->
  excerpt n = VStr e -> e <> "" -> showExcerpt opts <> Some false ->
  ToString (url n) = Ok u -> ToString (title n) = Ok t ->
  exists shown,
    _renderResults container (Some (before ++ item :: after)%list) opts =
      Ok {| innerHTML := "<ul class=" +:+ quoted "semantic-search-result-list" +:+ ">"
                         +:+ foldr String.append "" hs_before
                         +:+ list_item u t (excerpt_paragraph shown)
                         +:+ foldr String.append "" hs_after
                         +:+ "</ul>";
            display := "block" |} /\
    ((100 < String.length e)%nat ->
       exists head tail, e = head +:+ tail /\ String.length head = 100%nat /\
                         shown = head +:+ "...") /\
    ((String.length e <= 100)%nat -> shown = e).
Proof.
  intros Hbefore Hafter Hn He Hne Hshow Hu Ht.
  exists (string_take 100 e +:+ (if (100 <? String.length e)%nat then "..." else "")).
  split; [| split].
  - pose proof (render_item_excerpt _ _ _ _ _ _ Hn He Hne Hshow Hu Ht) as Hitem.
    assert (Hall : Forall2 (fun r h => render_item r opts = Ok h)
                     (before ++ item :: after)%list
                     (hs_before ++ list_item u t
                        (excerpt_paragraph
                           (string_take 100 e
                            +:+ (if (100 <? String.length e)%nat then "..." else "")))
                      :: hs_after)%list).
    { apply Forall2_app; [exact Hbefore |]. by constructor. }
    unfold _renderResults.
    destruct (before ++ item :: after)%list as [| r0 rest] eqn:Hlist;
      [by destruct before |].
    rewrite (render_items_all _ _ _ _ Hall), bind_ok, foldr_append_app. simpl foldr.
    by rewrite !append_assoc.
  - intros Hlong. exists (string_take 100 e), (string_drop 100 e).
    split; [by rewrite string_take_drop |]. split; [apply string_take_length; lia |].
    by rewrite (proj2 (Nat.ltb_lt _ _) Hlong).
  - intros Hshort. rewrite (proj2 (Nat.ltb_ge _ _) Hshort).
    by rewrite append_empty_r, string_take_all.
Qed.

(** The theorem at a list of two results, the first with an excerpt of 150
    characters and the second with one of 90: both are rendered, the first
    cut to 100 characters with the dots, the second as it is. *)
Lemma excerpt_truncation_witness :
  let long := VObj {[ "title" := VStr "A"; "excerpt" := VStr long_excerpt ]} in
  let short := VObj {[ "title" := VStr "B"; "excerpt" := VStr short_excerpt ]} in
  String.length long_excerpt = 150%nat /\ String.length short_excerpt = 90%nat /\
  exists head tail,
    long_excerpt = head +:+ tail /\ String.length head = 100%nat /\
    _renderResults cleared (Some [long; short]) no_options =
      Ok {| innerHTML := "<ul class=" +:+ quoted "semantic-search-result-list" +:+ ">"
                         +:+ list_item "#" "A" (excerpt_paragraph (head +:+ "..."))
                         +:+ list_item "#" "B" (excerpt_paragraph short_excerpt)
                         +:+ "</ul>";
            display := "block" |}.
Proof.
  intros long short. split; [reflexivity |]. split; [reflexivity |].
  assert (Hshow : showExcerpt no_options <> Some false) by discriminate.
  assert (Hn1 : _normalizeResult long
                = Ok {| title := VStr "A"; url := VStr "#"; excerpt := VStr long_excerpt |})
    by (vm_compute; reflexivity).
  assert (Hn2 : _normalizeResult short
                = Ok {| title := VStr "B"; url := VStr "#"; excerpt := VStr short_excerpt |})
    by (vm_compute; reflexivity).
  assert (Hne1 : long_excerpt <> "") by discriminate.
  assert (Hne2 : short_excerpt <> "") by discriminate.
  destruct (excerpt_truncation cleared [long] [] [list_item "#" "A" (excerpt_paragraph
              (String.concat "" (replicate 20 "abcde") +:+ "..."))] [] short no_options
              _ short_excerpt "#" "B"
              ltac:(repeat constructor; vm_compute; reflexivity) ltac:(constructor)
              Hn2 eq_refl Hne2 Hshow eq_refl eq_refl)
    as (shown2 & Hr2 & _ & Hshort).
  rewrite (Hshort ltac:(vm_compute; lia)) in Hr2.
  destruct (excerpt_truncation cleared [] [short] []
              [list_item "#" "B" (excerpt_paragraph short_excerpt)] long no_options
              _ long_excerpt "#" "A"
              ltac:(constructor) ltac:(repeat constructor; vm_compute; reflexivity)
              Hn1 eq_refl Hne1 Hshow eq_refl eq_refl)
    as (shown1 & Hr1 & Hlong & _).
  destruct (Hlong ltac:(vm_compute; lia)) as (head & tail & Hsplit & Hlen & ->).
  exists head, tail. split; [exact Hsplit |]. split; [exact Hlen |].
  change ([] ++ long :: [short])%list with [long; short] in Hr1.
  rewrite Hr1. simpl foldr. by rewrite append_empty_r.
Defined.

(** ** Properties: the bound search box *)

Section BindSearchBoxProperties.

Variable self : SemanticSearch.
Variable opts : options.
Variable url_sync : bool.

(** *** What [doSearch] touches *)

Lemma doSearch_searches (query : string) (updateHistory : bool) (s : page) :
  searches (doSearch self opts query updateHistory s)
  = (searches s ++ [call_of self opts query])%list.
Proof.
  unfold doSearch, call_of.
  destruct (search self query _) as [p req]. by destruct updateHistory, p.
Qed.

Lemma doSearch_timers (query : string) (updateHistory : bool) (s : page) :
  timers (doSearch self opts query updateHistory s) = timers s /\
  debounceTimer (doSearch self opts query updateHistory s) = debounceTimer s /\
  next_timer (doSearch self opts query updateHistory s) = next_timer s /\
  input_value (doSearch self opts query updateHistory s) = input_value s.
Proof.
  unfold doSearch.
  destruct (search self query _) as [p req]. by destruct updateHistory, p.
Qed.

Lemma doSearch_win (query : string) (updateHistory : bool) (s : page) :
  win (doSearch self opts query updateHistory s)
  = if updateHistory then _updateUrl query (win s) else win s.
Proof.
  unfold doSearch.
  destruct (search self query _) as [p req]. by destruct updateHistory, p.
Qed.

(** *** At most one timeout is pending *)

Lemma timers_wf_subset (s s' : page) :
  (forall id tm, timers s' !! id = Some tm -> timers s !! id = Some tm) ->
  debounceTimer s' = debounceTimer s -> next_timer s' = next_timer s ->
  timers_wf s -> timers_wf s'.
Proof.
  intros Hsub Hd Hn [Hone Hfresh]. split.
  - intros id tm H. rewrite Hd. by apply (Hone id tm), Hsub.
  - intros id. rewrite Hd, Hn. apply Hfresh.
Qed.

(** A page with no timeout set yet. *)
Lemma timers_wf_fresh (s : page) :
  timers s = ∅ -> debounceTimer s = None -> timers_wf s.
Proof.
  intros Ht Hd. split.
  - intros id tm. by rewrite Ht, lookup_empty.
  - intros id. by rewrite Hd.
Qed.

Lemma timers_wf_same (s s' : page) :
  timers s' = timers s -> debounceTimer s' = debounceTimer s ->
  next_timer s' = next_timer s -> timers_wf s -> timers_wf s'.
Proof. intros Ht. apply timers_wf_subset. by rewrite Ht. Qed.

(** Under the invariant the table is empty or holds the one timeout that
    [debounceTimer] names. *)
Lemma timers_wf_cases (s : page) :
  timers_wf s ->
  timers s = ∅ \/
  exists id tm, timers s = {[ id := tm ]} /\ debounceTimer s = Some id.
Proof.
  intros [Hone _]. destruct (debounceTimer s) as [id |] eqn:Hd.
  - destruct (timers s !! id) as [tm |] eqn:Hid.
    + right. exists id, tm. split; [| reflexivity]. apply map_eq. intros j.
      destruct (decide (id = j)) as [<- | Hne].
      * by rewrite lookup_singleton_eq.
      * rewrite lookup_singleton_ne by done.
        destruct (timers s !! j) as [tm' |] eqn:Hj; [| reflexivity].
        apply Hone in Hj. congruence.
    + left. apply map_empty. intros j.
      destruct (timers s !! j) as [tm' |] eqn:Hj; [| reflexivity].
      pose proof (Hone _ _ Hj). congruence.
  - left. apply map_empty. intros j.
    destruct (timers s !! j) as [tm' |] eqn:Hj; [| reflexivity].
    pose proof (Hone _ _ Hj). congruence.
Qed.

Lemma timers_wf_size (s : page) : timers_wf s -> (size (timers s) <= 1)%nat.
Proof.
  intros Hwf. destruct (timers_wf_cases s Hwf) as [-> | (id & tm & -> & _)].
  - rewrite map_size_empty. lia.
  - rewrite map_size_singleton. lia.
Qed.

(** [clearTimeout(debounceTimer)] leaves no timeout pending. *)
Lemma clearTimeout_timers (s : page) :
  timers_wf s -> timers (clearTimeout s) = ∅.
Proof.
  intros Hwf. unfold clearTimeout.
  destruct (timers_wf_cases s Hwf) as [He | (id & tm & Hs & Hd)].
  - destruct (debounceTimer s); simpl; rewrite He; [apply delete_empty | reflexivity].
  - rewrite Hd. simpl. rewrite Hs. apply delete_singleton_eq.
Qed.

Lemma clearTimeout_rest (s : page) :
  debounceTimer (clearTimeout s) = debounceTimer s /\
  next_timer (clearTimeout s) = next_timer s /\
  searches (clearTimeout s) = searches s /\
  win (clearTimeout s) = win s /\
  input_value (clearTimeout s) = input_value s /\
  now (clearTimeout s) = now s /\
  resultContainer (clearTimeout s) = resultContainer s.
Proof.
  unfold clearTimeout. destruct s as [? ? ? [id |] ? ? ? ?]; repeat split; reflexivity.
Qed.

Lemma clearTimeout_wf (s : page) : timers_wf s -> timers_wf (clearTimeout s).
Proof.
  intros Hwf. pose proof (clearTimeout_rest s) as (Hd & Hn & _).
  split.
  - intros id tm. by rewrite (clearTimeout_timers s Hwf), lookup_empty.
  - intros id. rewrite Hd, Hn. apply Hwf.
Qed.

Lemma on_input_wf (s : page) : timers_wf s -> timers_wf (on_input opts s).
Proof.
  intros Hwf. unfold on_input.
  pose proof (clearTimeout_timers s Hwf) as Hclear.
  destruct (_ <? _)%Z.
  - by apply (timers_wf_same (clearTimeout s)), clearTimeout_wf.
  - unfold setTimeout. split; simpl.
    + intros id tm. rewrite Hclear. intros H.
      apply lookup_insert_Some in H as [[<- _] | [_ H]]; [reflexivity |].
      by rewrite lookup_empty in H.
    + intros id [= <-]. lia.
Qed.

Lemma on_timeout_wf (id : nat) (tm : timer) (s : page) :
  timers_wf s -> timers_wf (on_timeout self opts id tm s).
Proof.
  intros Hwf. unfold on_timeout.
  destruct (doSearch_timers (timer_query tm) false (set_timers (delete id (timers s)) s))
    as (Ht & Hd & Hn & _).
  apply (timers_wf_subset s); [| by rewrite Hd | by rewrite Hn | exact Hwf].
  intros j tm'. rewrite Ht. simpl. intros H.
  by apply lookup_delete_Some in H as [_ H].
Qed.

Lemma handle_wf (ev : event) (s : page) :
  timers_wf s -> timers_wf (handle self opts url_sync ev s).
Proof.
  intros Hwf. destruct ev as [v | key | inside | results |]; simpl.
  - apply on_input_wf. by apply (timers_wf_same s).
  - unfold on_keydown. destruct (url_sync && _); [| exact Hwf].
    destruct (_ <=? _)%Z; [| exact Hwf].
    destruct (doSearch_timers (trim (input_value s)) true (clearTimeout s))
      as (Ht & Hd & Hn & _).
    by apply (timers_wf_same (clearTimeout s)), clearTimeout_wf.
  - unfold on_click. destruct inside; [exact Hwf | by apply (timers_wf_same s)].
  - unfold on_fulfilled. destruct (_renderResults _ _ _); by apply (timers_wf_same s).
  - by apply (timers_wf_same s).
Qed.

Lemma advance_wf (t : Z) (s : page) :
  timers_wf s -> timers_wf (advance self opts t s).
Proof.
  intros Hwf. unfold advance.
  assert (Hfold : forall l s', timers_wf s' ->
            timers_wf (foldl (fun s p => on_timeout self opts p.1 p.2 s) s' l)).
  { induction l as [| [id tm] l IH]; intros s' Hs'; simpl; [exact Hs' |].
    apply IH. by apply on_timeout_wf. }
  eapply timers_wf_same; [reflexivity .. | by apply Hfold].
Qed.

Lemma step_wf (s : page) (te : Z * event) :
  timers_wf s -> timers_wf (step self opts url_sync s te).
Proof. intros Hwf. unfold step. by apply handle_wf, advance_wf. Qed.

Lemma run_wf (evs : list (Z * event)) (s : page) :
  timers_wf s -> timers_wf (run self opts url_sync s evs).
Proof.
  revert s. induction evs as [| te evs IH]; intros s Hwf; simpl; [exact Hwf |].
  apply IH. by apply step_wf.
Qed.

Lemma bindSearchBox_wf (v : option string) (c : option element) (w : window)
  (t0 : Z) (s : page) :
  bindSearchBox self opts url_sync v c w t0 = Some s ->
  timers_wf s /\ timers s = ∅.
Proof.
  unfold bindSearchBox. destruct v as [v |], c as [c |]; try discriminate.
  assert (Hinit : forall s0, timers s0 = ∅ -> debounceTimer s0 = None ->
                             timers_wf s0).
  { intros s0 Ht Hd. split.
    - intros id tm. by rewrite Ht, lookup_empty.
    - intros id. by rewrite Hd. }
  assert (Hsearch : forall q s0, timers s0 = ∅ -> debounceTimer s0 = None ->
            timers_wf (doSearch self opts q false s0) /\
            timers (doSearch self opts q false s0) = ∅).
  { intros q s0 Ht Hd. destruct (doSearch_timers q false s0) as (Ht' & Hd' & _).
    split; [apply Hinit |]; congruence. }
  destruct url_sync; [| intros [= <-]; split; [by apply Hinit | reflexivity]].
  destruct (negb _); [| intros [= <-]; split; [by apply Hinit | reflexivity]].
  destruct (_ <=? _)%Z; intros [= <-].
  - by apply Hsearch.
  - split; [by apply Hinit | reflexivity].
Qed.

(** *** Timeouts coming due *)

Lemma due_empty (t : Z) : due t ∅ = [].
Proof. unfold due. by rewrite map_to_list_empty. Qed.

Lemma due_singleton (t : Z) (id : nat) (tm : timer) :
  due t {[ id := tm ]} = if decide (fires_at tm <= t)%Z then [(id, tm)] else [].
Proof.
  unfold due. rewrite map_to_list_singleton, filter_cons, filter_nil. simpl.
  by destruct (decide (fires_at tm <= t)%Z).
Qed.

Lemma advance_idle (t : Z) (s : page) :
  timers s = ∅ -> advance self opts t s = set_now t s.
Proof. intros H. unfold advance. by rewrite H, due_empty. Qed.


Lemma advance_fires (t : Z) (s : page) (id : nat) (tm : timer) :
  timers s = {[ id := tm ]} -> (fires_at tm <= t)%Z ->
  advance self opts t s = set_now t (on_timeout self opts id tm s).
Proof.
  intros H Hle. unfold advance. rewrite H, due_singleton.
  destruct (decide (fires_at tm <= t)%Z); [reflexivity | lia].
Qed.


(** *** The [input] listener *)

Lemma on_input_short (s : page) :
  timers_wf s ->
  (Z.of_nat (String.length (trim (input_value s))) < min_length opts)%Z ->
  on_input opts s = set_resultContainer cleared (clearTimeout s) /\
  timers (on_input opts s) = ∅ /\
  resultContainer (on_input opts s) = cleared /\
  searches (on_input opts s) = searches s /\
  win (on_input opts s) = win s.
Proof.
  intros Hwf Hshort. unfold on_input.
  rewrite (proj2 (Z.ltb_lt _ _) Hshort).
  pose proof (clearTimeout_rest s) as (_ & _ & Hse & Hw & _).
  split; [reflexivity |]. simpl. split; [by apply clearTimeout_timers |].
  split; [reflexivity |]. by split.
Qed.

Lemma on_input_long (s : page) :
  timers_wf s ->
  (min_length opts <= Z.of_nat (String.length (trim (input_value s))))%Z ->
  timers (on_input opts s)
  = {[ next_timer s := {| fires_at := now s + timeout_delay (debounceMs opts);
                          timer_query := trim (input_value s) |} ]} /\
  resultContainer (on_input opts s) = resultContainer s /\
  searches (on_input opts s) = searches s /\
  win (on_input opts s) = win s.
Proof.
  intros Hwf Hlong. unfold on_input.
  rewrite (proj2 (Z.ltb_ge _ _) Hlong).
  pose proof (clearTimeout_rest s) as (_ & Hn & Hse & Hw & _ & Hnow & Hc).
  unfold setTimeout. simpl.
  rewrite (clearTimeout_timers s Hwf), Hn, Hnow, insert_empty. by repeat split.
Qed.






(** The delay as the timer takes it: a negative one counts as none, and so
    does 2^31, which wraps around to a negative number; 2^32 + 300 wraps
    around to 300. *)
Example timeout_delay_examples :
  timeout_delay 300 = 300%Z /\ timeout_delay (-5) = 0%Z /\
  timeout_delay (2 ^ 31 - 1) = (2 ^ 31 - 1)%Z /\
  timeout_delay (2 ^ 31) = 0%Z /\ timeout_delay (2 ^ 32 + 300) = 300%Z.
Proof. repeat split; reflexivity. Qed.



(** C4: an [input] event whose trimmed value is shorter than [minLength]
    makes no search and sends nothing: the listener cancels the pending
    timeout, empties the container and hides it, and leaves no timeout
    behind that could make a search later. *)
Theorem short_query_no_search (s : page) (v : string) :
  timers_wf s ->
  (Z.of_nat (String.length (trim v)) < min_length opts)%Z ->
  let s' := handle self opts url_sync (input v) s in
  searches s' = searches s /\
  timers s' = ∅ /\
  innerHTML (resultContainer s') = "" /\
  display (resultContainer s') = "none" /\
  (forall T, searches (advance self opts T s') = searches s).
Proof.
  intros Hwf Hshort s'. subst s'.
  change (handle self opts url_sync (input v) s)
    with (on_input opts (set_input_value v s)).
  assert (Hwf1 : timers_wf (set_input_value v s)) by (by apply (timers_wf_same s)).
  destruct (on_input_short (set_input_value v s) Hwf1 Hshort)
    as (_ & Ht & Hc & Hse & _).
  split; [exact Hse |]. split; [exact Ht |]. rewrite Hc.
  split; [reflexivity |]. split; [reflexivity |].
  intros T. rewrite (advance_idle T _ Ht). exact Hse.
Qed.

End BindSearchBoxProperties.

(** ** Properties: URL sync *)

Lemma searchParams_get_delete (name : string) (ps : list (string * string)) :
  searchParams_get name (searchParams_delete name ps) = None.
Proof.
  unfold searchParams_delete. induction ps as [| [n v] ps IH]; [reflexivity |].
  rewrite filter_cons. simpl.
  destruct (decide (String.eqb n name = false)) as [H | H]; [| exact IH].
  simpl. by rewrite H.
Qed.

Lemma searchParams_get_set (name value : string) (ps : list (string * string)) :
  searchParams_get name (searchParams_set name value ps) = Some value.
Proof.
  induction ps as [| [n v] ps IH]; simpl.
  - by rewrite String.eqb_refl.
  - destruct (String.eqb n name) eqn:H; simpl.
    + by rewrite String.eqb_refl.
    + by rewrite H.
Qed.

(** Other parameters keep their first value. *)
Lemma searchParams_get_set_other (name value other : string) (ps : list (string * string)) :
  other <> name ->
  searchParams_get other (searchParams_set name value ps) = searchParams_get other ps.
Proof.
  intros Hne. apply String.eqb_neq in Hne.
  assert (Hdel : forall l, searchParams_get other (searchParams_delete name l)
                           = searchParams_get other l).
  { unfold searchParams_delete. induction l as [| [n v] l IH]; [reflexivity |].
    rewrite filter_cons. simpl.
    destruct (decide (String.eqb n name = false)) as [H | H]; simpl.
    - by rewrite IH.
    - apply not_false_iff_true, String.eqb_eq in H. subst n.
      rewrite String.eqb_sym in Hne. by rewrite Hne. }
  induction ps as [| [n v] ps IH]; simpl.
  - rewrite String.eqb_sym in Hne. by rewrite Hne.
  - destruct (String.eqb n name) eqn:H; simpl.
    + apply String.eqb_eq in H. subst n.
      rewrite String.eqb_sym in Hne. by rewrite Hne, Hdel.
    + by rewrite IH.
Qed.

Lemma location_href_replaceState (u : URL) (w : window) :
  window_wf w -> location_href (replaceState u w) = u.
Proof.
  intros Hw. unfold location_href, replaceState. simpl.
  by rewrite list_lookup_insert_eq.
Qed.

(** [replaceState] adds no entry and does not move in the history. *)
Lemma replaceState_history (u : URL) (w : window) :
  length (entries (replaceState u w)) = length (entries w) /\
  current (replaceState u w) = current w.
Proof. unfold replaceState. simpl. by rewrite length_insert. Qed.

Lemma _updateUrl_q (query : string) (w : window) :
  window_wf w ->
  searchParams_get "q" (searchParams (location_href (_updateUrl query w)))
  = if String.eqb query "" then None else Some query.
Proof.
  intros Hw. unfold _updateUrl. rewrite (location_href_replaceState _ _ Hw). simpl.
  destruct (String.eqb query ""); simpl.
  - apply searchParams_get_delete.
  - apply searchParams_get_set.
Qed.

Lemma _updateUrl_history (query : string) (w : window) :
  length (entries (_updateUrl query w)) = length (entries w) /\
  current (_updateUrl query w) = current w.
Proof. unfold _updateUrl. apply replaceState_history. Qed.

(** C7 (amended): in the URL-sync copy, Enter on a value whose trimmed form
    has at least [minLength] characters cancels the pending timeout, makes
    the search at once and puts the trimmed value into the parameter [q] of
    the current history entry, which is replaced in place (no entry is
    added); Enter on a shorter value does nothing. When the box is bound,
    [q] is read from the URL; if it is not empty the input takes it, and if
    it has at least [minLength] characters one search is made, the URL being
    left as it is. *)
Theorem url_sync_enter_and_init (self : SemanticSearch) (opts : options) (s : page)
  (v0 : string) (c0 : element) (w : window) (t0 : Z) :
  timers_wf s -> window_wf (win s) ->
  let query := trim (input_value s) in
  let entered := handle self opts true (keydown "Enter") s in
  let urlQuery := _getQueryFromUrl w in
  ((min_length opts <= Z.of_nat (String.length query))%Z ->
     timers entered = ∅ /\
     searches entered = (searches s ++ [call_of self opts query])%list /\
     length (entries (win entered)) = length (entries (win s)) /\
     current (win entered) = current (win s) /\
     (query <> "" ->
      searchParams_get "q" (searchParams (location_href (win entered))) = Some query)) /\
  ((Z.of_nat (String.length query) < min_length opts)%Z -> entered = s) /\
  (exists s1, bindSearchBox self opts true (Some v0) (Some c0) w t0 = Some s1 /\
     win s1 = w /\ timers s1 = ∅ /\
     (urlQuery = "" -> input_value s1 = v0 /\ searches s1 = []) /\
     (urlQuery <> "" -> input_value s1 = urlQuery /\
        ((min_length opts <= Z.of_nat (String.length urlQuery))%Z ->
           searches s1 = [call_of self opts urlQuery]) /\
        ((Z.of_nat (String.length urlQuery) < min_length opts)%Z -> searches s1 = []))).
Proof.
  intros Hwf Hw query entered urlQuery.
  split; [| split].
  - intros Hlong. subst entered. simpl. unfold on_keydown. simpl.
    fold query. rewrite (proj2 (Z.leb_le _ _) Hlong).
    destruct (doSearch_timers self opts query true (clearTimeout s)) as (Ht & _).
    pose proof (clearTimeout_rest s) as (_ & _ & Hse & Hwin & _).
    rewrite Ht, doSearch_searches, doSearch_win, Hse, Hwin.
    split; [by apply clearTimeout_timers |]. split; [reflexivity |].
    destruct (_updateUrl_history query (win s)) as [Hlen Hcur].
    split; [exact Hlen |]. split; [exact Hcur |].
    intros Hne. rewrite (_updateUrl_q query _ Hw).
    by rewrite (proj2 (String.eqb_neq _ _) Hne).
  - intros Hshort. subst entered. simpl. unfold on_keydown. simpl.
    fold query. by rewrite (proj2 (Z.leb_gt _ _) Hshort).
  - unfold bindSearchBox. fold urlQuery.
    destruct (String.eqb urlQuery "") eqn:Hq; simpl.
    + apply String.eqb_eq in Hq. eexists. split; [reflexivity |]. simpl.
      repeat split; try done.
    + apply String.eqb_neq in Hq.
      destruct (min_length opts <=? Z.of_nat (String.length urlQuery))%Z eqn:Hl.
      * apply Z.leb_le in Hl. eexists. split; [reflexivity |].
        destruct (doSearch_timers self opts urlQuery false
                    (set_input_value urlQuery (mkPage t0 v0 c0 None ∅ 0 w [])))
          as (Ht & _ & _ & Hv).
        rewrite doSearch_win, Ht, Hv, doSearch_searches. simpl.
        repeat split; try done. lia.
      * apply Z.leb_gt in Hl. eexists. split; [reflexivity |]. simpl.
        repeat split; try done. lia.
Qed.

(** ** Further properties: the request and its outcome *)

Lemma get_not_nullish (o : value) (k : string) :
  nullish o = false -> get o k = Ok (peek o k).
Proof. unfold peek. by destruct o. Qed.

Lemma get_nullish (o : value) (k : string) :
  nullish o = true -> get o k = Throw TypeError.
Proof. by destruct o. Qed.

(** X1: a request that [search] sends is a POST to the endpoint followed by
    [/v1/search]; it leaves the promise pending; it carries the JSON content
    type, and the [Authorization: Bearer] header exactly when a reader key
    is set. *)
Theorem search_request_shape (self : SemanticSearch) (query : string)
  (opts : option options) (p : promise) (r : request) :
  search self query opts = (p, Some r) ->
  p = Pending /\ truthy (endpoint self) = true /\ req_method r = "POST" /\
  (exists base, ToString (endpoint self) = Ok base /\ req_url r = base +:+ "/v1/search") /\
  (truthy (readerKey self) = false ->
     req_headers r = [("Content-Type", "application/json")]) /\
  (truthy (readerKey self) = true ->
     exists key, ToString (readerKey self) = Ok key /\
       req_headers r = [("Content-Type", "application/json");
                        ("Authorization", "Bearer " +:+ key)]).
Proof.
  intros H.
  destruct (truthy (endpoint self)) eqn:He;
    [| by rewrite (search_without_endpoint _ _ _ He) in H].
  destruct (ToString (endpoint self)) as [base | e] eqn:Hb;
    [| unfold search in H; rewrite He, Hb in H; discriminate].
  rewrite (search_steps _ _ _ _ He Hb) in H. cbv zeta in H.
  destruct (parses_as_url (base +:+ "/v1/search")); [| discriminate].
  destruct (truthy (readerKey self)) eqn:Hk.
  - destruct (ToString (readerKey self)) as [key | e]; [| discriminate].
    destruct (is_header_value ("Bearer " +:+ key)); [| discriminate].
    injection H as <- <-. simpl. repeat split; try done; eauto.
  - injection H as <- <-. simpl. repeat split; try done; eauto.
Qed.

(** X2: a completed exchange always settles the promise. It rejects with
    the message that carries the status when the status is outside
    [200,300), whatever the body is; within that range it rejects with the
    parse error when the body is not JSON or is [null], and resolves with a
    truthy value for every other body. *)
Theorem exchange_outcome (status : Z) (body : option value) :
  let p := settle (response_events status body) Pending in
  ((status < 200 \/ 300 <= status)%Z ->
     p = Rejected (Error ("Search failed: " +:+ string_of_Z status))) /\
  ((200 <= status < 300)%Z -> body = None ->
     p = Rejected (Error "Failed to parse response")) /\
  ((200 <= status < 300)%Z -> forall response, body = Some response ->
     nullish response = true -> p = Rejected (Error "Failed to parse response")) /\
  ((200 <= status < 300)%Z -> forall response, body = Some response ->
     nullish response = false -> exists v, p = Resolved v /\ truthy v = true) /\
  p <> Pending.
Proof.
  intros p. subst p. rewrite settle_response.
  assert (Hout : (status < 200 \/ 300 <= status)%Z ->
            onreadystatechange 4 status body Pending
            = Rejected (Error ("Search failed: " +:+ string_of_Z status))).
  { intros H. unfold onreadystatechange. simpl (4 =? 4)%Z. cbv iota.
    by rewrite (out_of_success_range _ H). }
  assert (Hnone : (200 <= status < 300)%Z -> body = None ->
            onreadystatechange 4 status body Pending
            = Rejected (Error "Failed to parse response")).
  { intros H ->. unfold onreadystatechange. simpl (4 =? 4)%Z. cbv iota.
    by rewrite (in_success_range _ H). }
  assert (Hnull : (200 <= status < 300)%Z -> forall response, body = Some response ->
            nullish response = true ->
            onreadystatechange 4 status body Pending
            = Rejected (Error "Failed to parse response")).
  { intros H response -> Hn. rewrite (onreadystatechange_success _ _ H).
    by rewrite (get_nullish _ _ Hn). }
  assert (Hval : (200 <= status < 300)%Z -> forall response, body = Some response ->
            nullish response = false ->
            exists v, onreadystatechange 4 status body Pending = Resolved v /\
                      truthy v = true).
  { intros H response -> Hn. rewrite (onreadystatechange_success _ _ H).
    rewrite (get_not_nullish _ _ Hn).
    destruct (truthy (peek response "results")) eqn:Hr; [eauto |].
    destruct (truthy response) eqn:Ht; eauto. }
  split; [exact Hout |]. split; [exact Hnone |]. split; [exact Hnull |].
  split; [exact Hval |].
  destruct (Z.lt_ge_cases status 200) as [Hlo | Hlo];
    [rewrite Hout by lia; discriminate |].
  destruct (Z.lt_ge_cases status 300) as [Hhi | Hhi];
    [| rewrite Hout by lia; discriminate].
  destruct body as [response |]; [| rewrite Hnone by (done || lia); discriminate].
  destruct (nullish response) eqn:Hn.
  - rewrite (Hnull ltac:(lia) response eq_refl Hn). discriminate.
  - destruct (Hval ltac:(lia) response eq_refl Hn) as (v & -> & _). discriminate.
Qed.

Lemma dispatch_settled (ev : xhr_event) (p : promise) :
  p <> Pending -> dispatch_xhr ev p = p.
Proof.
  intros Hp. destruct p as [| v | e]; [done | |];
    destruct ev as [rs st b |]; simpl; try reflexivity;
    unfold onreadystatechange;
    repeat match goal with |- context [if ?c then _ else _] => destruct c end;
    try reflexivity;
    repeat match goal with |- context [match ?c with _ => _ end] => destruct c end;
    reflexivity.
Qed.

Lemma settle_settled (evs : list xhr_event) (p : promise) :
  p <> Pending -> settle evs p = p.
Proof.
  revert p. induction evs as [| ev evs IH]; intros p Hp; [reflexivity |].
  unfold settle. simpl. fold (settle evs (dispatch_xhr ev p)).
  rewrite (dispatch_settled ev p Hp). by apply IH.
Qed.

(** X3: the first event that settles the promise decides the outcome of the
    search; whatever the request object fires afterwards changes nothing. *)
Theorem first_settlement_wins (evs1 evs2 : list xhr_event) :
  settle (evs1 ++ evs2)%list Pending =
    match settle evs1 Pending with
    | Pending => settle evs2 Pending
    | settled => settled
    end.
Proof.
  unfold settle at 1. rewrite foldl_app. fold (settle evs1 Pending).
  fold (settle evs2 (settle evs1 Pending)).
  destruct (settle evs1 Pending) as [| v | e] eqn:H; [reflexivity | |];
    by apply settle_settled.
Qed.

(** What each listener can make of a pending promise. *)
Lemma dispatch_resolves_truthy (ev : xhr_event) (v : value) :
  dispatch_xhr ev Pending = Resolved v -> truthy v = true.
Proof.
  destruct ev as [rs st b |]; simpl; [| by unfold onerror].
  unfold onreadystatechange.
  destruct (rs =? 4)%Z; [| discriminate].
  destruct (_ && _); [| discriminate].
  destruct b as [response |]; [| discriminate].
  destruct (nullish response) eqn:Hn.
  - by rewrite (get_nullish _ _ Hn).
  - rewrite (get_not_nullish _ _ Hn), !truthy_or.
    destruct (truthy (peek response "results")) eqn:Hr; simpl; rewrite ?Hr;
      [intros [= <-]; exact Hr |].
    destruct (truthy response) eqn:Ht; simpl; intros [= <-];
      [exact Ht | reflexivity].
Qed.

(** X4: whatever events the request object fires, a search never resolves
    with a falsy value: the [then] branch always gets an array or another
    truthy value, never [null], [undefined], [0] or the empty string. *)
Theorem resolved_value_truthy (evs : list xhr_event) (v : value) :
  settle evs Pending = Resolved v -> truthy v = true.
Proof.
  assert (Hgen : forall evs p, (forall w, p = Resolved w -> truthy w = true) ->
            forall w, settle evs p = Resolved w -> truthy w = true).
  { clear. induction evs as [| ev evs IH]; intros p Hp w; [apply Hp |].
    unfold settle. simpl. fold (settle evs (dispatch_xhr ev p)).
    apply IH. intros w' Hw'. destruct p as [| u | e].
    - by apply (dispatch_resolves_truthy ev).
    - rewrite dispatch_settled in Hw' by discriminate. by apply Hp.
    - rewrite dispatch_settled in Hw' by discriminate. discriminate. }
  apply Hgen. discriminate.
Qed.

(** The theorem at a response whose body is the number 0. *)
Lemma resolved_value_truthy_witness :
  settle (response_events 200 (Some (VNum 0))) Pending = Resolved (VArr []) /\
  truthy (VArr []) = true.
Proof.
  assert (H : settle (response_events 200 (Some (VNum 0))) Pending = Resolved (VArr []))
    by reflexivity.
  split; [exact H | exact (resolved_value_truthy _ _ H)].
Defined.

(** X5: the states of the request before DONE (opened, headers received,
    loading) never settle the promise, whatever status they report. *)
Theorem progress_events_keep_pending (evs : list xhr_event) :
  Forall before_done evs -> settle evs Pending = Pending.
Proof.
  induction 1 as [| ev evs Hev _ IH]; [reflexivity |].
  unfold settle. simpl. fold (settle evs (dispatch_xhr ev Pending)).
  destruct ev as [rs st b |]; [| done]. simpl in *.
  unfold onreadystatechange.
  destruct (rs =? 4)%Z eqn:E; [apply Z.eqb_eq in E; contradiction | exact IH].
Qed.

(** The theorem at the two progress events of an exchange. *)
Lemma progress_events_keep_pending_witness :
  settle [readystatechange 2 200 None; readystatechange 3 200 None] Pending = Pending.
Proof.
  apply progress_events_keep_pending.
  repeat constructor; simpl; discriminate.
Defined.

(** ** Further properties: configuration *)

(** [configure] on anything but [null] and [undefined]. *)
Lemma configure_peek (this : SemanticSearch) (options : value) :
  nullish options = false ->
  configure this options =
    Ok {| endpoint := if truthy (peek options "endpoint")
                      then peek options "endpoint" else endpoint this;
          readerKey := if truthy (peek options "readerKey")
                       then peek options "readerKey" else readerKey this |}.
Proof.
  intros Hn. unfold configure.
  by rewrite !(get_not_nullish _ _ Hn), !truthy_or.
Qed.

Lemma configure_ok_not_nullish (this this' : SemanticSearch) (options : value) :
  configure this options = Ok this' -> nullish options = false.
Proof.
  intros H. destruct options; try reflexivity; discriminate.
Qed.

(** X6: [configure] is idempotent: configuring again with the same options
    changes nothing. *)
Theorem configure_idempotent (this this' : SemanticSearch) (options : value) :
  configure this options = Ok this' -> configure this' options = Ok this'.
Proof.
  intros H. pose proof (configure_ok_not_nullish _ _ _ H) as Hn.
  rewrite (configure_peek _ _ Hn) in H. injection H as <-.
  rewrite (configure_peek _ _ Hn). simpl.
  destruct (truthy (peek options "endpoint")), (truthy (peek options "readerKey"));
    reflexivity.
Qed.

(** The theorem at a change of endpoint. *)
Lemma configure_idempotent_witness :
  let this := {| endpoint := VStr "https://a"; readerKey := VStr "k" |} in
  let this' := {| endpoint := VStr "https://b"; readerKey := VStr "k" |} in
  let options := VObj {[ "endpoint" := VStr "https://b" ]} in
  configure this options = Ok this' /\ configure this' options = Ok this'.
Proof.
  intros this this' options.
  assert (H : configure this options = Ok this') by reflexivity.
  split; [exact H | exact (configure_idempotent _ _ _ H)].
Defined.

(** X7: [configure] cannot take a setting away: an endpoint or reader key
    that is set (truthy) is still set after any call that returns, whatever
    the options hold. *)
Theorem configure_never_unsets (this this' : SemanticSearch) (options : value) :
  configure this options = Ok this' ->
  (truthy (endpoint this) = true -> truthy (endpoint this') = true) /\
  (truthy (readerKey this) = true -> truthy (readerKey this') = true).
Proof.
  intros H. pose proof (configure_ok_not_nullish _ _ _ H) as Hn.
  rewrite (configure_peek _ _ Hn) in H. injection H as <-. simpl.
  split; intros Ht.
  - by destruct (truthy (peek options "endpoint")) eqn:He.
  - by destruct (truthy (peek options "readerKey")) eqn:Hr.
Qed.

(** The theorem at an attempt to clear both settings with [null]. *)
Lemma configure_never_unsets_witness :
  let this := {| endpoint := VStr "https://a"; readerKey := VStr "k" |} in
  let options := VObj {[ "endpoint" := VNull; "readerKey" := VNull ]} in
  configure this options = Ok this /\
  truthy (endpoint this) = true /\ truthy (readerKey this) = true.
Proof.
  intros this options.
  assert (H : configure this options = Ok this) by reflexivity.
  destruct (configure_never_unsets _ _ _ H) as [He Hr].
  split; [exact H |]. split; [by apply He | by apply Hr].
Defined.

(** ** Further properties: normalisation *)

Lemma first_truthy_default_truthy (candidates : list value) (dflt : value) :
  truthy dflt = true -> truthy (first_truthy candidates dflt) = true.
Proof.
  intros Hd. induction candidates as [| v rest IH]; simpl; [exact Hd |].
  by destruct (truthy v) eqn:Hv.
Qed.

Lemma first_truthy_or_default (candidates : list value) (dflt : value) :
  truthy (first_truthy candidates dflt) = true \/ first_truthy candidates dflt = dflt.
Proof.
  induction candidates as [| v rest IH]; simpl; [by right |].
  destruct (truthy v) eqn:Hv; [by left | exact IH].
Qed.

Lemma normalize_fields (item : value) :
  exists r, _normalizeResult item = Ok r /\
    truthy (title r) = true /\ truthy (url r) = true /\
    (truthy (excerpt r) = true \/ excerpt r = VStr "").
Proof.
  eexists. split; [apply normalize_chosen |]. simpl. unfold chosen_field.
  split; [by apply first_truthy_default_truthy |].
  split; [by apply first_truthy_default_truthy |].
  apply first_truthy_or_default.
Qed.

(** X8: whatever the item, the title and the url of the normalised record
    are truthy (never empty, [null] or [undefined]), and the excerpt is
    truthy or the empty string. *)
Theorem normalize_fields_set (item : value) :
  exists r, _normalizeResult item = Ok r /\
    truthy (title r) = true /\ truthy (url r) = true /\
    (truthy (excerpt r) = true \/ excerpt r = VStr "").
Proof. apply normalize_fields. Qed.

(** A record whose fields are set as [normalize_fields] says is what
    [_normalizeResult] makes of itself. *)
Lemma normalize_as_item (r : normalized) :
  truthy (title r) = true -> truthy (url r) = true ->
  truthy (excerpt r) = true \/ excerpt r = VStr "" ->
  _normalizeResult (as_item r) = Ok r.
Proof.
  intros Ht Hu He. rewrite normalize_chosen. destruct r as [t u e]. simpl in *.
  unfold chosen_field, as_item, peek. simpl.
  assert (Hlook : forall k, k = "title" \/ k = "url" \/ k = "excerpt" ->
            ({[ "title" := t; "url" := u; "excerpt" := e ]} : gmap string value) !! k
            = Some (if String.eqb k "title" then t
                    else if String.eqb k "url" then u else e)).
  { intros k [-> | [-> | ->]]; simpl.
    - by rewrite lookup_insert_eq.
    - rewrite lookup_insert_ne by done. by rewrite lookup_insert_eq.
    - rewrite !lookup_insert_ne by done. by rewrite lookup_singleton_eq. }
  assert (Hno : forall k, k = "document" \/ k = "metadata" ->
            ({[ "title" := t; "url" := u; "excerpt" := e ]} : gmap string value) !! k
            = None).
  { intros k [-> | ->]; rewrite !lookup_insert_ne by done;
      by rewrite lookup_singleton_ne. }
  rewrite !Hno by auto. simpl.
  rewrite !Hlook by auto. simpl. rewrite Ht, Hu.
  destruct He as [He | ->]; [by rewrite He | reflexivity].
Qed.

(** X9: normalising is idempotent: the record that [_normalizeResult]
    returns, passed to it again as an item, comes back unchanged. *)
Theorem normalize_idempotent (item : value) (r : normalized) :
  _normalizeResult item = Ok r -> _normalizeResult (as_item r) = Ok r.
Proof.
  intros H. destruct (normalize_fields item) as (r' & Hr' & Ht & Hu & He).
  rewrite H in Hr'. injection Hr' as <-. by apply normalize_as_item.
Qed.

(** The theorem at an item in the nested shape. *)
Lemma normalize_idempotent_witness :
  let item := VObj {[ "document" := VObj {[ "metadata" := VObj {[ "title" := VStr "T" ]} ]};
                      "url" := VStr "/u" ]} in
  let r := {| title := VStr "T"; url := VStr "/u"; excerpt := VStr "" |} in
  _normalizeResult item = Ok r /\ _normalizeResult (as_item r) = Ok r.
Proof.
  intros item r.
  assert (H : _normalizeResult item = Ok r) by (vm_compute; reflexivity).
  split; [exact H | exact (normalize_idempotent _ _ H)].
Defined.

(** ** Further properties: the plain copy *)

Lemma and_get (o : value) (k : string) :
  Ok o &&& get o k = Ok (if truthy o then peek o k else o).
Proof.
  unfold and_. simpl. destruct (truthy o) eqn:Ho; [| reflexivity].
  by apply get_truthy.
Qed.

(** The inline resolution of the plain copy on an item that can be read. *)
Lemma plain_resolve_steps (item : value) :
  nullish item = false ->
  Plain.resolve item =
    let document := peek item "document" in
    let meta :=
      first_truthy [if truthy document then peek document "metadata" else document;
                    peek item "metadata"] (VObj ∅) in
    Ok {| title := first_truthy
                     [peek meta "title";
                      if truthy document then peek document "id" else document;
                      peek item "title"] (VStr "Untitled");
          url := first_truthy [peek meta "url"; peek item "url"] (VStr "#");
          excerpt := first_truthy [peek meta "excerpt"; peek item "excerpt"] (VStr "") |}.
Proof.
  intros Hn. unfold Plain.resolve.
  rewrite !(get_not_nullish item _ Hn), !bind_ok, !and_get.
  set (document := peek item "document").
  set (guard := if truthy document then peek document "metadata" else document).
  assert (Hmeta : Ok guard ||| Ok (peek item "metadata") ||| Ok (VObj ∅)
                  = Ok (first_truthy [guard; peek item "metadata"] (VObj ∅))).
  { rewrite !truthy_or. simpl.
    destruct (truthy guard) eqn:Hg; [by rewrite Hg |].
    by destruct (truthy (peek item "metadata")). }
  rewrite Hmeta, bind_ok.
  set (meta := first_truthy [guard; peek item "metadata"] (VObj ∅)).
  assert (Htruthy : truthy meta = true) by (by apply first_truthy_default_truthy).
  rewrite !(get_truthy meta _ Htruthy).
  assert (Hthree : forall a b c d : value,
            Ok a ||| Ok b ||| Ok c ||| Ok d = Ok (first_truthy [a; b; c] d)).
  { intros a b c d. rewrite !or_assoc, !truthy_or. simpl.
    destruct (truthy a); [reflexivity |]. destruct (truthy b); [reflexivity |].
    by destruct (truthy c). }
  assert (Htwo : forall a b d : value,
            Ok a ||| Ok b ||| Ok d = Ok (first_truthy [a; b] d)).
  { intros a b d. rewrite !or_assoc, !truthy_or. simpl.
    destruct (truthy a); [reflexivity |]. by destruct (truthy b). }
  rewrite Hthree, !Htwo, !bind_ok. reflexivity.
Qed.

(** X10: the inline resolution of the plain copy throws exactly on a result
    that is [null] or [undefined]; on every other value it returns a record.
    (The copies with [_normalizeResult] return the default record there.) *)
Theorem plain_resolve_throws_on_nullish (item : value) :
  (nullish item = true ->
     Plain.resolve item = Throw TypeError /\
     forall opts, Plain.render_item item opts = Throw TypeError) /\
  (nullish item = false -> exists r, Plain.resolve item = Ok r) /\
  (exists r, _normalizeResult item = Ok r).
Proof.
  split; [| split].
  - intros Hn. assert (H : Plain.resolve item = Throw TypeError) by (by destruct item).
    split; [exact H |]. intros opts. unfold Plain.render_item. by rewrite H.
  - intros Hn. rewrite (plain_resolve_steps _ Hn). eauto.
  - eexists. apply normalize_chosen.
Qed.

(** X11: on a result other than [null] and [undefined] that has no truthy
    [document] (a flat item, or one with only a top-level [metadata]), the
    plain copy resolves the three fields to the same record as
    [_normalizeResult]. *)
Theorem plain_agrees_without_document (item : value) :
  nullish item = false -> truthy (peek item "document") = false ->
  Plain.resolve item = _normalizeResult item.
Proof.
  intros Hn Hd. rewrite (plain_resolve_steps _ Hn), normalize_chosen. cbv zeta.
  unfold chosen_field. rewrite Hd, (peek_falsy _ "metadata" Hd). cbv iota.
  assert (Hskip : forall f, truthy (peek (peek item "document") f) = false)
    by (intros f; by apply peek_falsy).
  assert (Hmeta : forall f,
            truthy (peek (first_truthy [peek item "document"; peek item "metadata"]
                            (VObj ∅)) f)
            = truthy (peek (peek item "metadata") f) /\
            (truthy (peek (peek item "metadata") f) = true ->
             peek (first_truthy [peek item "document"; peek item "metadata"] (VObj ∅)) f
             = peek (peek item "metadata") f)).
  { intros f. rewrite (first_truthy_skip _ _ _ Hd). simpl.
    destruct (truthy (peek item "metadata")) eqn:Hm; [by split |].
    rewrite (peek_falsy _ f Hm). by split. }
  assert (Hfield : forall f dflt,
            first_truthy
              [peek (first_truthy [peek item "document"; peek item "metadata"] (VObj ∅)) f;
               peek item f] dflt
            = first_truthy [peek (peek item "metadata") f;
                            peek (peek item "document") f; peek item f] dflt).
  { intros f dflt. destruct (Hmeta f) as [Ht Heq].
    destruct (truthy (peek (peek item "metadata") f)) eqn:Hm.
    - rewrite (first_truthy_take _ _ _ Ht), (first_truthy_take _ _ _ Hm).
      by apply Heq.
    - rewrite (first_truthy_skip _ _ _ Ht), (first_truthy_skip _ _ _ Hm).
      by rewrite (first_truthy_skip _ _ _ (Hskip f)). }
  f_equal. f_equal; [| apply Hfield | apply Hfield].
  destruct (Hmeta "title") as [Ht Heq].
  destruct (truthy (peek (peek item "metadata") "title")) eqn:Hm.
  - rewrite (first_truthy_take _ _ _ Ht), (first_truthy_take _ _ _ Hm).
    by apply Heq.
  - rewrite (first_truthy_skip _ _ _ Ht), (first_truthy_skip _ _ _ Hm).
    by rewrite (first_truthy_skip _ _ _ Hd), (first_truthy_skip _ _ _ (Hskip "title")).
Qed.

(** The theorem at an item with a top-level metadata object and a flat url. *)
Lemma plain_agrees_without_document_witness :
  let item := VObj {[ "metadata" := VObj {[ "title" := VStr "T" ]}; "url" := VStr "/u" ]} in
  Plain.resolve item = Ok {| title := VStr "T"; url := VStr "/u"; excerpt := VStr "" |} /\
  Plain.resolve item = _normalizeResult item.
Proof.
  intros item. split; [vm_compute; reflexivity |].
  apply plain_agrees_without_document; vm_compute; reflexivity.
Defined.

(** ** Further properties: rendering *)

Lemma render_items_each (html : string) (results : list value) (opts : options)
  (out : string) :
  render_items html results opts = Ok out ->
  exists hs, Forall2 (fun item h => render_item item opts = Ok h) results hs /\
             out = html +:+ foldr String.append "" hs.
Proof.
  revert html. induction results as [| item rest IH]; intros html H; simpl in H.
  - injection H as <-. exists []. split; [constructor | by rewrite append_empty_r].
  - destruct (render_item item opts) as [h | x] eqn:Hh; [| discriminate].
    rewrite bind_ok in H. destruct (IH _ H) as (hs & Hall & ->).
    exists (h :: hs). split; [by constructor |]. simpl. by rewrite append_assoc.
Qed.

(** X12: a successful rendering of a non-empty list writes one list element
    per result, in the order of the results, between the opening and the
    closing tag of the list, and shows the container. Each list element
    holds the link of its result, with the url and the title of the
    normalised record as strings; the paragraph of the shortened excerpt
    follows when the excerpt is truthy and excerpts are not switched off,
    and nothing otherwise. *)
Theorem render_list_structure (container container' : element) (results : list value)
  (opts : options) :
  _renderResults container (Some results) opts = Ok container' ->
  results <> [] ->
  exists hs,
    Forall2 (fun item h =>
               exists n u t p,
                 _normalizeResult item = Ok n /\
                 ToString (url n) = Ok u /\ ToString (title n) = Ok t /\
                 h = list_item u t p /\
                 (showExcerpt opts = Some false \/ truthy (excerpt n) = false -> p = "") /\
                 (showExcerpt opts <> Some false -> truthy (excerpt n) = true ->
                  exists short, shortExcerpt (excerpt n) = Ok short /\
                                p = excerpt_paragraph short))
      results hs /\
    length hs = length results /\
    innerHTML container' =
      "<ul class=" +:+ quoted "semantic-search-result-list" +:+ ">"
      +:+ foldr String.append "" hs +:+ "</ul>" /\
    display container' = "block".
Proof.
  intros H Hne. unfold _renderResults in H.
  destruct results as [| r0 rest]; [done |].
  destruct (render_items _ (r0 :: rest) opts) as [html | x] eqn:Hloop; [| discriminate].
  rewrite bind_ok in H. injection H as <-.
  destruct (render_items_each _ _ _ _ Hloop) as (hs & Hall & ->).
  exists hs. split; [| split; [symmetry; by eapply Forall2_length |]].
  - eapply Forall2_impl; [exact Hall |]. intros item h. apply render_item_shape.
  - simpl. split; [by rewrite !append_assoc | reflexivity].
Qed.

(** The theorem at two results, one of them [null]. *)
Lemma render_list_structure_witness :
  let results := [VObj {[ "title" := VStr "A"; "url" := VStr "/a" ]}; VNull] in
  exists container',
    _renderResults cleared (Some results) no_options = Ok container' /\
    innerHTML container' =
      "<ul class=" +:+ quoted "semantic-search-result-list" +:+ ">"
      +:+ list_item "/a" "A" "" +:+ list_item "#" "Untitled" "" +:+ "</ul>" /\
    display container' = "block".
Proof.
  intros results.
  destruct (_renderResults cleared (Some results) no_options) as [c |] eqn:Hr;
    [| vm_compute in Hr; discriminate].
  assert (Hne : results <> []) by discriminate.
  destruct (render_list_structure _ _ _ _ Hr Hne) as (hs & Hall & Hlen & Hhtml & Hd).
  exists c. split; [reflexivity |]. split; [| exact Hd].
  apply Forall2_cons_inv_l in Hall as (h1 & hs1 & H1 & Hall & ->).
  apply Forall2_cons_inv_l in Hall as (h2 & hs2 & H2 & Hall & ->).
  apply Forall2_nil_inv_l in Hall as ->.
  destruct H1 as (n1 & u1 & t1 & p1 & Hn1 & Hu1 & Ht1 & -> & Hp1 & _).
  destruct H2 as (n2 & u2 & t2 & p2 & Hn2 & Hu2 & Ht2 & -> & Hp2 & _).
  vm_compute in Hn1. injection Hn1 as <-. vm_compute in Hn2. injection Hn2 as <-.
  injection Hu1 as <-. injection Ht1 as <-. injection Hu2 as <-. injection Ht2 as <-.
  rewrite (Hp1 ltac:(by right)), (Hp2 ltac:(by right)) in Hhtml.
  rewrite Hhtml. simpl foldr. by rewrite ?append_empty_r.
Defined.

(** The loop stops at the first result whose markup cannot be built. *)
Lemma render_items_throws (html : string) (results : list value) (opts : options)
  (i : nat) (item : value) (x : exn) :
  results !! i = Some item -> render_item item opts = Throw x ->
  exists x', render_items html results opts = Throw x'.
Proof.
  intros Hi Hx. destruct (render_items html results opts) as [out | x'] eqn:H; [| eauto].
  rewrite <- (take_drop_middle _ _ _ Hi) in H.
  destruct (render_items_middle _ _ _ _ _ _ H) as (_ & h & _ & Hh & _). congruence.
Qed.

Lemma render_item_bad_excerpt (item : value) (opts : options) (n : normalized) :
  _normalizeResult item = Ok n ->
  truthy (excerpt n) = true -> (forall e, excerpt n <> VStr e) ->
  showExcerpt opts <> Some false ->
  exists x, render_item item opts = Throw x.
Proof.
  intros Hn He Hns Hshow. unfold render_item, item_markup. rewrite Hn, bind_ok.
  destruct (ToString (url n)) as [u | x]; [| eauto]. rewrite bind_ok.
  destruct (ToString (title n)) as [t | x]; [| eauto]. rewrite bind_ok.
  rewrite He, bool_decide_eq_false_2 by exact Hshow. simpl andb. cbv iota.
  destruct (excerpt n) as [| | b | z | e | l | m] eqn:E; simpl; eauto.
  by destruct (Hns e).
Qed.

(** X13: one result whose excerpt resolves to a truthy value that is not a
    string (a number, an array, an object) makes [_renderResults] throw for
    the whole list, wherever the result stands in it; in the bound search
    box the [catch] branch then replaces the results by the failure
    message. *)
Theorem bad_excerpt_fails_the_list (self : SemanticSearch) (opts : options)
  (url_sync : bool) (s : page) (results : list value) (i : nat) (item : value)
  (n : normalized) :
  results !! i = Some item -> _normalizeResult item = Ok n ->
  truthy (excerpt n) = true -> (forall e, excerpt n <> VStr e) ->
  showExcerpt opts <> Some false ->
  (exists x, _renderResults (resultContainer s) (Some results) opts = Throw x) /\
  resultContainer (handle self opts url_sync (search_fulfilled (Some results)) s)
  = search_failed.
Proof.
  intros Hi Hn He Hns Hshow.
  destruct (render_item_bad_excerpt _ _ _ Hn He Hns Hshow) as [x Hx].
  assert (Hthrow : exists x', _renderResults (resultContainer s) (Some results) opts
                              = Throw x').
  { unfold _renderResults. destruct results as [| r0 rest]; [by rewrite lookup_nil in Hi |].
    destruct (render_items_throws
                ("<ul class=" +:+ quoted "semantic-search-result-list" +:+ ">")
                (r0 :: rest) opts i item x Hi Hx) as [x' ->]. eauto. }
  split; [exact Hthrow |]. destruct Hthrow as [x' Hx'].
  simpl. unfold on_fulfilled. by rewrite Hx'.
Qed.

(** X14: when [showExcerpt] is [false], or the excerpt is empty, the markup
    of a result is the link alone, without an excerpt paragraph; the excerpt
    is then not even inspected, so one of a wrong type does no harm. *)
Theorem no_excerpt_paragraph (item : value) (opts : options) (n : normalized)
  (u t : string) :
  _normalizeResult item = Ok n ->
  showExcerpt opts = Some false \/ truthy (excerpt n) = false ->
  ToString (url n) = Ok u -> ToString (title n) = Ok t ->
  render_item item opts =
    Ok ("<li class=" +:+ quoted "semantic-search-result-item" +:+ ">"
        +:+ "<a href=" +:+ quoted u +:+ " class=" +:+ quoted "semantic-search-result-link"
        +:+ ">" +:+ t +:+ "</a>" +:+ "" +:+ "</li>").
Proof.
  intros Hn Hoff Hu Ht. unfold render_item, item_markup.
  rewrite Hn, bind_ok, Hu, bind_ok, Ht, bind_ok.
  assert (truthy (excerpt n) && negb (bool_decide (showExcerpt opts = Some false))
          = false) as ->.
  { destruct Hoff as [Hs | He].
    - rewrite bool_decide_eq_true_2 by exact Hs. apply andb_false_r.
    - by rewrite He. }
  reflexivity.
Qed.

(** The theorem at a result with a numeric excerpt, excerpts switched off. *)
Lemma no_excerpt_paragraph_witness :
  render_item (VObj {[ "title" := VStr "A"; "excerpt" := VNum 5 ]})
    (mkOptions None None None (Some false) None)
  = Ok ("<li class=" +:+ quoted "semantic-search-result-item" +:+ ">"
        +:+ "<a href=" +:+ quoted "#" +:+ " class=" +:+ quoted "semantic-search-result-link"
        +:+ ">" +:+ "A" +:+ "</a>" +:+ "" +:+ "</li>").
Proof.
  apply (no_excerpt_paragraph _ _ {| title := VStr "A"; url := VStr "#"; excerpt := VNum 5 |});
    [vm_compute; reflexivity | by left | reflexivity | reflexivity].
Defined.

Lemma render_display (container container' : element) (results : option (list value))
  (opts : options) :
  _renderResults container results opts = Ok container' -> display container' = "block".
Proof.
  unfold _renderResults. destruct results as [[| r0 rest] |]; try (by intros [= <-]).
  destruct (render_items _ _ _); [| discriminate]. rewrite bind_ok. by intros [= <-].
Qed.

(** X15: when a search settles, by an array of results, by an empty list
    or by a failure, the listener shows the container, writes the failure
    message on a rejection, and touches neither the pending timeout, nor
    the URL, nor the input, nor the searches made so far. *)
Theorem settled_search_shows_container (self : SemanticSearch) (opts : options)
  (url_sync : bool) (s : page) (results : option (list value)) :
  let shown := handle self opts url_sync (search_fulfilled results) s in
  let failed := handle self opts url_sync search_rejected s in
  display (resultContainer shown) = "block" /\
  display (resultContainer failed) = "block" /\
  resultContainer failed = search_failed /\
  timers shown = timers s /\ timers failed = timers s /\
  win shown = win s /\ win failed = win s /\
  input_value shown = input_value s /\ input_value failed = input_value s /\
  searches shown = searches s /\ searches failed = searches s /\
  debounceTimer shown = debounceTimer s /\ debounceTimer failed = debounceTimer s.
Proof.
  intros shown failed. subst shown failed. simpl. unfold on_fulfilled, on_rejected.
  destruct (_renderResults (resultContainer s) results opts) as [c | x] eqn:H; simpl.
  - rewrite (render_display _ _ _ _ H). by repeat split.
  - by repeat split.
Qed.

(** ** Further properties: the URL *)

Lemma searchParams_get_delete_other (name other : string) (ps : list (string * string)) :
  other <> name ->
  searchParams_get other (searchParams_delete name ps) = searchParams_get other ps.
Proof.
  intros Hne. apply String.eqb_neq in Hne. unfold searchParams_delete.
  induction ps as [| [n v] ps IH]; [reflexivity |].
  rewrite filter_cons. simpl.
  destruct (decide (String.eqb n name = false)) as [H | H]; simpl.
  - by rewrite IH.
  - apply not_false_iff_true, String.eqb_eq in H. subst n.
    rewrite String.eqb_sym in Hne. by rewrite Hne.
Qed.

Lemma searchParams_delete_delete (name : string) (ps : list (string * string)) :
  searchParams_delete name (searchParams_delete name ps) = searchParams_delete name ps.
Proof. unfold searchParams_delete. by apply list_filter_filter_r. Qed.

Lemma searchParams_delete_none (name : string) (ps : list (string * string)) :
  filter (fun p => p.1 = name) (searchParams_delete name ps) = [].
Proof.
  unfold searchParams_delete. rewrite list_filter_filter.
  induction ps as [| [n v] ps IH]; [reflexivity |].
  rewrite filter_cons, IH. simpl.
  destruct (decide (n = name /\ String.eqb n name = false)) as [[-> H] |]; [| reflexivity].
  by rewrite String.eqb_refl in H.
Qed.

Lemma searchParams_set_once (name value : string) (ps : list (string * string)) :
  filter (fun p => p.1 = name) (searchParams_set name value ps) = [(name, value)].
Proof.
  induction ps as [| [n v] ps IH]; simpl.
  - rewrite filter_cons, filter_nil. simpl. by destruct (decide (name = name)).
  - destruct (String.eqb n name) eqn:H.
    + rewrite filter_cons, searchParams_delete_none. simpl.
      by destruct (decide (name = name)).
    + rewrite filter_cons, IH. simpl. apply String.eqb_neq in H.
      by destruct (decide (n = name)).
Qed.

Lemma searchParams_set_set (name value : string) (ps : list (string * string)) :
  searchParams_set name value (searchParams_set name value ps)
  = searchParams_set name value ps.
Proof.
  induction ps as [| [n v] ps IH]; simpl.
  - by rewrite String.eqb_refl.
  - destruct (String.eqb n name) eqn:H; simpl.
    + by rewrite String.eqb_refl, searchParams_delete_delete.
    + by rewrite H, IH.
Qed.

(** X16: reading the query back after [_updateUrl(query)] gives that query:
    the written value for a non-empty query, and the empty string after an
    empty one has removed the parameter. *)
Theorem updateUrl_then_read (query : string) (w : window) :
  window_wf w -> _getQueryFromUrl (_updateUrl query w) = query.
Proof.
  intros Hw. unfold _getQueryFromUrl. rewrite (_updateUrl_q query w Hw).
  destruct (String.eqb query "") eqn:Hq.
  - by apply String.eqb_eq in Hq.
  - by rewrite Hq.
Qed.

(** The theorem at a window whose URL already carries two [q] parameters. *)
Lemma updateUrl_then_read_witness :
  let w := {| entries := [ {| url_rest := "https://blog.example/";
                              searchParams := [("q", "old"); ("page", "2"); ("q", "older")] |} ];
              current := 0 |} in
  _getQueryFromUrl w = "old" /\ _getQueryFromUrl (_updateUrl "cats" w) = "cats".
Proof.
  intros w. split; [reflexivity |].
  apply updateUrl_then_read. unfold window_wf. simpl. lia.
Defined.

(** X17: [_updateUrl] changes nothing but the parameter [q] of the current
    entry: every other parameter reads as before, the rest of the URL is
    kept, the other entries of the history are untouched, and no entry is
    added. *)
Theorem updateUrl_frame (query : string) (w : window) :
  window_wf w ->
  (forall other, other <> "q" ->
     searchParams_get other (searchParams (location_href (_updateUrl query w)))
     = searchParams_get other (searchParams (location_href w))) /\
  url_rest (location_href (_updateUrl query w)) = url_rest (location_href w) /\
  (forall j, j <> current w -> entries (_updateUrl query w) !! j = entries w !! j) /\
  length (entries (_updateUrl query w)) = length (entries w) /\
  current (_updateUrl query w) = current w.
Proof.
  intros Hw. unfold _updateUrl. rewrite (location_href_replaceState _ _ Hw). simpl.
  split; [| split; [reflexivity | split; [| split; [apply length_insert | reflexivity]]]].
  - intros other Hne. destruct (String.eqb query ""); simpl.
    + by apply searchParams_get_delete_other.
    + by apply searchParams_get_set_other.
  - intros j Hj. by apply list_lookup_insert_ne.
Qed.

(** The theorem at a window with a second parameter and an older entry. *)
Lemma updateUrl_frame_witness :
  let older := {| url_rest := "https://blog.example/about"; searchParams := [] |} in
  let w := {| entries := [ older;
                           {| url_rest := "https://blog.example/";
                              searchParams := [("page", "2")] |} ];
              current := 1 |} in
  searchParams_get "page" (searchParams (location_href (_updateUrl "cats" w))) = Some "2" /\
  entries (_updateUrl "cats" w) !! 0%nat = Some older /\
  length (entries (_updateUrl "cats" w)) = 2%nat.
Proof.
  intros older w.
  assert (Hw : window_wf w) by (unfold window_wf; simpl; lia).
  destruct (updateUrl_frame "cats" w Hw) as (Hother & _ & Hentries & Hlen & _).
  split; [by rewrite Hother |]. split; [by rewrite Hentries | exact Hlen].
Defined.

(** X18: after [_updateUrl] with a non-empty query the URL holds exactly one
    [q] parameter, also when it held several before; and a second
    [_updateUrl] with the same query changes nothing. *)
Theorem updateUrl_single_q (query : string) (w : window) :
  window_wf w ->
  (query <> "" ->
     filter (fun p => p.1 = "q") (searchParams (location_href (_updateUrl query w)))
     = [("q", query)]) /\
  _updateUrl query (_updateUrl query w) = _updateUrl query w.
Proof.
  intros Hw. split.
  - intros Hq. unfold _updateUrl. rewrite (location_href_replaceState _ _ Hw). simpl.
    rewrite (proj2 (String.eqb_neq _ _) Hq). simpl. apply searchParams_set_once.
  - unfold _updateUrl. rewrite (location_href_replaceState _ _ Hw).
    unfold replaceState. simpl. rewrite list_insert_insert_eq.
    destruct (String.eqb query ""); simpl.
    + by rewrite searchParams_delete_delete.
    + by rewrite searchParams_set_set.
Qed.

(** The theorem at a URL that carries two [q] parameters. *)
Lemma updateUrl_single_q_witness :
  let w := {| entries := [ {| url_rest := "https://blog.example/";
                              searchParams := [("q", "old"); ("page", "2"); ("q", "older")] |} ];
              current := 0 |} in
  searchParams (location_href (_updateUrl "cats" w)) = [("q", "cats"); ("page", "2")] /\
  filter (fun p => p.1 = "q") (searchParams (location_href (_updateUrl "cats" w)))
  = [("q", "cats")].
Proof.
  intros w. split; [reflexivity |].
  assert (Hw : window_wf w) by (unfold window_wf; simpl; lia).
  apply (proj1 (updateUrl_single_q "cats" w Hw)). discriminate.
Defined.

(** ** Further properties: the bound search box over whole runs *)

Section RunProperties.

Variable self : SemanticSearch.
Variable opts : options.
Variable url_sync : bool.

Lemma on_timeout_trace (id : nat) (tm : timer) (s : page) :
  searches (on_timeout self opts id tm s)
  = (searches s ++ [call_of self opts (timer_query tm)])%list /\
  timers (on_timeout self opts id tm s) = delete id (timers s) /\
  win (on_timeout self opts id tm s) = win s.
Proof.
  unfold on_timeout. rewrite doSearch_searches, doSearch_win.
  destruct (doSearch_timers self opts (timer_query tm) false
              (set_timers (delete id (timers s)) s)) as (-> & _).
  by repeat split.
Qed.

Lemma due_pending (t : Z) (tms : gmap nat timer) :
  Forall (fun p => tms !! p.1 = Some p.2) (due t tms).
Proof.
  unfold due. rewrite merge_sort_Permutation. apply Forall_forall.
  intros [id tm] Hin. apply list_elem_of_filter in Hin as [_ Hin].
  by apply elem_of_map_to_list in Hin.
Qed.

(** The searches of a run are appended to the log, each one the call that
    [doSearch] makes for some query that passed the length guard. *)
Lemma fire_trace (l : list (nat * timer)) :
  forall s, Forall (fun p => long_enough opts (timer_query p.2)) l -> timers_long opts s ->
  let s' := foldl (fun s p => on_timeout self opts p.1 p.2 s) s l in
  timers_long opts s' /\ win s' = win s /\
  exists qs, Forall (long_enough opts) qs /\
    searches s' = (searches s ++ map (call_of self opts) qs)%list.
Proof.
  induction l as [| [id tm] l IH]; intros s Hl Hs; simpl.
  - split; [exact Hs |]. split; [reflexivity |]. exists []. split; [constructor |].
    by rewrite app_nil_r.
  - apply Forall_cons in Hl as [Hq Hl]. simpl in Hq.
    destruct (on_timeout_trace id tm s) as (Hse & Ht & Hw).
    destruct (IH (on_timeout self opts id tm s) Hl) as (Hlong & Hwin & qs & Hqs & Hres).
    { intros j tm'. rewrite Ht. intros H. apply lookup_delete_Some in H as [_ H].
      by apply (Hs j). }
    split; [exact Hlong |]. split; [congruence |].
    exists (timer_query tm :: qs). split; [by constructor |].
    rewrite Hres, Hse. simpl. by rewrite <- app_assoc.
Qed.

Lemma advance_trace (t : Z) (s : page) :
  timers_long opts s ->
  timers_long opts (advance self opts t s) /\ win (advance self opts t s) = win s /\
  exists qs, Forall (long_enough opts) qs /\
    searches (advance self opts t s) = (searches s ++ map (call_of self opts) qs)%list.
Proof.
  intros Hs. unfold advance.
  destruct (fire_trace (due t (timers s)) s) as (Hlong & Hwin & qs & Hqs & Hres).
  - eapply Forall_impl; [apply due_pending |]. intros [id tm] H. by apply (Hs id).
  - exact Hs.
  - split; [exact Hlong |]. split; [exact Hwin |]. by exists qs.
Qed.

Lemma handle_trace (ev : event) (s : page) :
  timers_long opts s ->
  timers_long opts (handle self opts url_sync ev s) /\
  exists qs, Forall (long_enough opts) qs /\
    searches (handle self opts url_sync ev s)
    = (searches s ++ map (call_of self opts) qs)%list.
Proof.
  intros Hs.
  assert (Hnone : forall s', timers s' = timers s -> searches s' = searches s ->
            timers_long opts s' /\
            exists qs, Forall (long_enough opts) qs /\
              searches s' = (searches s ++ map (call_of self opts) qs)%list).
  { intros s' Ht Hse. split; [intros id tm; rewrite Ht; apply Hs |].
    exists []. split; [constructor | by rewrite Hse, app_nil_r]. }
  assert (Hclear : forall s', timers_long opts s' -> timers_long opts (clearTimeout s')).
  { intros s' Hs' id tm. unfold clearTimeout.
    destruct (debounceTimer s'); [| apply Hs']. simpl. intros H.
    apply lookup_delete_Some in H as [_ H]. by apply (Hs' id). }
  destruct ev as [v | key | inside | results |]; simpl.
  - unfold on_input.
    pose proof (clearTimeout_rest (set_input_value v s)) as (_ & _ & Hse & _).
    destruct (_ <? _)%Z eqn:Hlen.
    + split; [apply (Hclear (set_input_value v s)), Hs |].
      exists []. split; [constructor |]. simpl. by rewrite Hse, app_nil_r.
    + apply Z.ltb_ge in Hlen. split.
      * intros id tm. unfold setTimeout. simpl. intros H.
        apply lookup_insert_Some in H as [[_ <-] | [_ H]]; [exact Hlen |].
        by apply (Hclear (set_input_value v s) Hs id).
      * exists []. split; [constructor |]. unfold setTimeout. simpl.
        by rewrite Hse, app_nil_r.
  - unfold on_keydown. destruct (url_sync && _); [| by apply Hnone].
    destruct (_ <=? _)%Z eqn:Hlen; [| by apply Hnone]. apply Z.leb_le in Hlen.
    destruct (doSearch_timers self opts (trim (input_value s)) true (clearTimeout s))
      as (Ht & _).
    pose proof (clearTimeout_rest s) as (_ & _ & Hse & _).
    split; [intros id tm; rewrite Ht; by apply Hclear |].
    exists [trim (input_value s)]. split; [by repeat constructor |].
    by rewrite doSearch_searches, Hse.
  - unfold on_click. destruct inside; by apply Hnone.
  - unfold on_fulfilled. destruct (_renderResults _ _ _); by apply Hnone.
  - by apply (Hnone (on_rejected s)).
Qed.

Lemma run_trace (evs : list (Z * event)) :
  forall s, timers_long opts s ->
  exists qs, Forall (long_enough opts) qs /\
    searches (run self opts url_sync s evs)
    = (searches s ++ map (call_of self opts) qs)%list.
Proof.
  induction evs as [| [t ev] evs IH]; intros s Hs.
  - exists []. split; [constructor | by rewrite app_nil_r].
  - change (run self opts url_sync s ((t, ev) :: evs))
      with (run self opts url_sync
              (handle self opts url_sync ev (advance self opts t s)) evs).
    destruct (advance_trace t s Hs) as (Hs1 & _ & qs1 & Hq1 & He1).
    destruct (handle_trace ev _ Hs1) as (Hs2 & qs2 & Hq2 & He2).
    destruct (IH _ Hs2) as (qs3 & Hq3 & He3).
    exists (qs1 ++ qs2 ++ qs3)%list. split; [by repeat apply Forall_app_2 |].
    rewrite He3, He2, He1, !map_app. by rewrite <- !app_assoc.
Qed.

Lemma bindSearchBox_trace (v : option string) (c : option element) (w : window)
  (t0 : Z) (s : page) :
  bindSearchBox self opts url_sync v c w t0 = Some s ->
  timers_long opts s /\
  exists qs, Forall (long_enough opts) qs /\ searches s = map (call_of self opts) qs.
Proof.
  unfold bindSearchBox. destruct v as [v |], c as [c |]; try discriminate.
  assert (Hfresh : forall s0, timers s0 = ∅ -> timers_long opts s0).
  { intros s0 H id tm. by rewrite H, lookup_empty. }
  destruct url_sync;
    [| intros [= <-]; split; [by apply Hfresh | exists []; by split]].
  destruct (negb _);
    [| intros [= <-]; split; [by apply Hfresh | exists []; by split]].
  destruct (_ <=? _)%Z eqn:Hlen; intros [= <-].
  - apply Z.leb_le in Hlen.
    destruct (doSearch_timers self opts (_getQueryFromUrl w) false
                (set_input_value (_getQueryFromUrl w) (mkPage t0 v c None ∅ 0 w [])))
      as (Ht & _).
    split; [by apply Hfresh |].
    exists [_getQueryFromUrl w]. split; [by repeat constructor |].
    by rewrite doSearch_searches.
  - split; [by apply Hfresh | exists []; by split].
Qed.

(** X19: from the moment the box is bound, whatever events follow (typing,
    keys, clicks, timeouts coming due, searches settling), every search the
    box makes is for a query of at least [minLength] characters. *)
Theorem searches_meet_min_length (v : option string) (c : option element)
  (w : window) (t0 : Z) (s0 : page) (evs : list (Z * event)) :
  bindSearchBox self opts url_sync v c w t0 = Some s0 ->
  Forall (fun call => (min_length opts <= Z.of_nat (String.length (call_query call)))%Z)
    (searches (run self opts url_sync s0 evs)).
Proof.
  intros Hb. destruct (bindSearchBox_trace _ _ _ _ _ Hb) as (Hs0 & qs0 & Hq0 & He0).
  destruct (run_trace evs s0 Hs0) as (qs & Hqs & ->). rewrite He0.
  apply Forall_app_2; apply Forall_map; eapply Forall_impl; eauto.
Qed.

(** The request of the call that [doSearch] makes, if one goes out, posts
    the query and the limit of the binding. *)
Lemma call_of_body (q : string) (r : request) :
  call_request (call_of self opts q) = Some r ->
  req_body r = VObj {[ "query" := VStr q; "limit" := VNum (num_or (limit opts) 10) ]}.
Proof.
  unfold call_of. simpl.
  destruct (search self q _) as [p' [r' |]] eqn:Hs; simpl; [| discriminate].
  intros [= ->]. rewrite (search_body _ _ _ _ _ Hs). simpl.
  destruct (limit opts) as [n |]; simpl; [| reflexivity].
  destruct (n =? 0)%Z eqn:Hn; simpl; [reflexivity | by rewrite Hn].
Qed.

(** X20: every request that a bound box sends, in any run, posts the query
    of its search and the limit of the binding: [options.limit] when that
    is truthy, and 10 when it is 0 or absent. *)
Theorem requests_carry_bound_limit (v : option string) (c : option element)
  (w : window) (t0 : Z) (s0 : page) (evs : list (Z * event)) :
  bindSearchBox self opts url_sync v c w t0 = Some s0 ->
  Forall (fun call => forall r, call_request call = Some r ->
            exists lim,
              req_body r = VObj {[ "query" := VStr (call_query call);
                                   "limit" := VNum lim ]} /\
              (forall n, limit opts = Some n -> n <> 0%Z -> lim = n) /\
              (limit opts = Some 0%Z -> lim = 10%Z) /\
              (limit opts = None -> lim = 10%Z))
    (searches (run self opts url_sync s0 evs)).
Proof.
  intros Hb. destruct (bindSearchBox_trace _ _ _ _ _ Hb) as (Hs0 & qs0 & Hq0 & He0).
  destruct (run_trace evs s0 Hs0) as (qs & Hqs & ->). rewrite He0.
  assert (Hcall : forall q r, call_request (call_of self opts q) = Some r ->
            exists lim,
              req_body r = VObj {[ "query" := VStr (call_query (call_of self opts q));
                                   "limit" := VNum lim ]} /\
              (forall n, limit opts = Some n -> n <> 0%Z -> lim = n) /\
              (limit opts = Some 0%Z -> lim = 10%Z) /\
              (limit opts = None -> lim = 10%Z)).
  { intros q r Hr. exists (num_or (limit opts) 10).
    split; [exact (call_of_body q r Hr) |]. repeat split.
    - intros n -> Hn. simpl.
      destruct (n =? 0)%Z eqn:E; [apply Z.eqb_eq in E; contradiction | reflexivity].
    - by intros ->.
    - by intros ->. }
  apply Forall_app_2; apply Forall_map, Forall_forall; intros q _; apply Hcall.
Qed.

(** X21: with no endpoint configured, a bound box never sends a request,
    whatever happens on the page: every search it makes is rejected on the
    spot with the configuration error. *)
Theorem no_endpoint_no_request (v : option string) (c : option element)
  (w : window) (t0 : Z) (s0 : page) (evs : list (Z * event)) :
  truthy (endpoint self) = false ->
  bindSearchBox self opts url_sync v c w t0 = Some s0 ->
  Forall (fun call =>
            call_request call = None /\
            call_promise call = Rejected (Error "SemanticSearch endpoint not configured"))
    (searches (run self opts url_sync s0 evs)).
Proof.
  intros He Hb. destruct (bindSearchBox_trace _ _ _ _ _ Hb) as (Hs0 & qs0 & Hq0 & He0).
  destruct (run_trace evs s0 Hs0) as (qs & Hqs & ->). rewrite He0.
  assert (Hcall : forall q,
            call_request (call_of self opts q) = None /\
            call_promise (call_of self opts q)
            = Rejected (Error "SemanticSearch endpoint not configured")).
  { intros q. unfold call_of. simpl. by rewrite (search_without_endpoint _ _ _ He). }
  apply Forall_app_2; apply Forall_map, Forall_forall; intros q _; apply Hcall.
Qed.

End RunProperties.

Section RunProperties2.

Variable self : SemanticSearch.
Variable opts : options.
Variable url_sync : bool.

(** *** The history *)

Lemma _updateUrl_entries (query : string) (w : window) :
  length (entries (_updateUrl query w)) = length (entries w) /\
  current (_updateUrl query w) = current w /\
  (forall j, j <> current w -> entries (_updateUrl query w) !! j = entries w !! j).
Proof.
  unfold _updateUrl, replaceState. simpl.
  split; [apply length_insert |]. split; [reflexivity |].
  intros j Hj. by apply list_lookup_insert_ne.
Qed.

Lemma fire_win (l : list (nat * timer)) (s : page) :
  win (foldl (fun s p => on_timeout self opts p.1 p.2 s) s l) = win s.
Proof.
  revert s. induction l as [| [id tm] l IH]; intros s; simpl; [reflexivity |].
  rewrite IH. by destruct (on_timeout_trace self opts id tm s) as (_ & _ & ->).
Qed.

Lemma advance_win (t : Z) (s : page) : win (advance self opts t s) = win s.
Proof. unfold advance. simpl. apply fire_win. Qed.

(** Only Enter in the URL-sync copy writes the URL. *)
Lemma handle_win (ev : event) (s : page) :
  win (handle self opts url_sync ev s) = win s \/
  (url_sync = true /\ ev = keydown "Enter" /\
   win (handle self opts url_sync ev s) = _updateUrl (trim (input_value s)) (win s)).
Proof.
  destruct ev as [v | key | inside | results |]; simpl.
  - left. unfold on_input.
    pose proof (clearTimeout_rest (set_input_value v s)) as (_ & _ & _ & Hw & _).
    by destruct (_ <? _)%Z.
  - unfold on_keydown. destruct url_sync; [| by left]. simpl.
    destruct (String.eqb key "Enter") eqn:Hk; [| by left].
    apply String.eqb_eq in Hk. subst key.
    destruct (_ <=? _)%Z; [| by left]. right.
    pose proof (clearTimeout_rest s) as (_ & _ & _ & Hw & _).
    by rewrite doSearch_win, Hw.
  - left. unfold on_click. by destruct inside.
  - left. unfold on_fulfilled. by destruct (_renderResults _ _ _).
  - by left.
Qed.

(** X22: whatever happens on the page, the session history never grows and
    the position in it never moves; entries other than the current one are
    never touched; and the URL of the current entry is written only by
    Enter in the URL-sync copy: the other copy, and any run without Enter,
    leaves the window as it was. *)
Theorem history_is_only_replaced (s : page) (evs : list (Z * event)) :
  let s' := run self opts url_sync s evs in
  length (entries (win s')) = length (entries (win s)) /\
  current (win s') = current (win s) /\
  (forall j, j <> current (win s) -> entries (win s') !! j = entries (win s) !! j) /\
  (url_sync = false -> win s' = win s) /\
  (Forall (fun te => te.2 <> keydown "Enter") evs -> win s' = win s).
Proof.
  revert s. induction evs as [| [t ev] evs IH]; intros s s'; subst s'.
  - by repeat split.
  - change (run self opts url_sync s ((t, ev) :: evs))
      with (run self opts url_sync
              (handle self opts url_sync ev (advance self opts t s)) evs).
    destruct (IH (handle self opts url_sync ev (advance self opts t s)))
      as (Hlen & Hcur & Hothers & Hplain & Hquiet).
    pose proof (advance_win t s) as Hadv.
    destruct (handle_win ev (advance self opts t s)) as [Hsame | (Hsync & Hev & Hupd)].
    + rewrite Hsame, Hadv in *. split; [exact Hlen |]. split; [exact Hcur |].
      split; [exact Hothers |]. split; [exact Hplain |].
      intros Hall. apply Forall_cons in Hall as [_ Hall]. by apply Hquiet.
    + destruct (_updateUrl_entries (trim (input_value (advance self opts t s))) (win s))
        as (Hl & Hc & Ho).
      rewrite Hupd, Hadv in *. rewrite Hlen, Hcur, Hl, Hc.
      split; [reflexivity |]. split; [reflexivity |]. split; [| split].
      * intros j Hj. rewrite Hothers by congruence. by apply Ho.
      * intros Hno. congruence.
      * intros Hall. apply Forall_cons in Hall as [Hne _]. simpl in Hne. congruence.
Qed.

(** X23: in every state a bound box can reach, at most one timeout is
    pending, and it is the one the variable [debounceTimer] holds. *)
Theorem reachable_one_timer (v : option string) (c : option element)
  (w : window) (t0 : Z) (s0 : page) (evs : list (Z * event)) :
  bindSearchBox self opts url_sync v c w t0 = Some s0 ->
  let s := run self opts url_sync s0 evs in
  (size (timers s) <= 1)%nat /\
  (forall id tm, timers s !! id = Some tm -> debounceTimer s = Some id).
Proof.
  intros Hb s. subst s. destruct (bindSearchBox_wf _ _ _ _ _ _ _ _ Hb) as [Hwf _].
  pose proof (run_wf self opts url_sync evs s0 Hwf) as Hrun.
  split; [by apply timers_wf_size | apply Hrun].
Qed.

(** *** Input events further apart than the delay *)

Lemma call_query_call_of (q : string) : call_query (call_of self opts q) = q.
Proof. reflexivity. Qed.

Lemma separated_run (T : Z) (inputs : list (Z * string)) :
  forall (s : page) (pend : list string),
  timers_wf s ->
  (timers s = ∅ /\ pend = []) \/
  (exists id tm, timers s = {[ id := tm ]} /\ pend = [timer_query tm] /\
     (fires_at tm <= T)%Z /\
     (forall e, head inputs = Some e -> (fires_at tm <= e.1)%Z)) ->
  separated (timeout_delay (debounceMs opts)) inputs ->
  Forall (fun e => (e.1 + timeout_delay (debounceMs opts) <= T)%Z) inputs ->
  map call_query
    (searches (advance self opts T (run self opts url_sync s (map input_at inputs))))
  = (map call_query (searches s) ++ pend
     ++ map (fun e => trim e.2)
          (filter (fun e => (min_length opts <= Z.of_nat (String.length (trim e.2)))%Z)
             inputs))%list.
Proof.
  induction inputs as [| [t v] rest IH]; intros s pend Hwf Hpend Hsep Hall.
  - change (run self opts url_sync s (map input_at [])) with s.
    destruct Hpend as [[He ->] | (id & tm & He & -> & HT & _)].
    + rewrite (advance_idle self opts T s He). simpl. by rewrite app_nil_r.
    + rewrite (advance_fires self opts T s id tm He HT). simpl searches.
      destruct (on_timeout_trace self opts id tm s) as (-> & _).
      by rewrite map_app.
  - apply Forall_cons in Hall as [HT Hall]. simpl in HT.
    change (run self opts url_sync s (map input_at ((t, v) :: rest)))
      with (run self opts url_sync
              (on_input opts (set_input_value v (advance self opts t s)))
              (map input_at rest)).
    set (s1 := advance self opts t s).
    assert (Hs1 : timers_wf s1 /\ timers s1 = ∅ /\ now s1 = t /\
                  map call_query (searches s1)
                  = (map call_query (searches s) ++ pend)%list).
    { split; [by apply advance_wf |]. subst s1.
      destruct Hpend as [[He ->] | (id & tm & He & -> & _ & Hhead)].
      - rewrite (advance_idle self opts t s He). simpl. by rewrite app_nil_r.
      - rewrite (advance_fires self opts t s id tm He (Hhead _ eq_refl)). simpl.
        destruct (on_timeout_trace self opts id tm s) as (-> & -> & _).
        rewrite He, delete_singleton_eq, map_app. by repeat split. }
    destruct Hs1 as (Hwf1 & Hempty1 & Hnow1 & Hcalls1).
    set (s1v := set_input_value v s1).
    assert (Hwf1v : timers_wf s1v) by (by apply (timers_wf_same s1)).
    assert (Hrest : separated (timeout_delay (debounceMs opts)) rest).
    { intros i a b Ha Hb. by apply (Hsep (S i)). }
    destruct (Z.lt_ge_cases (Z.of_nat (String.length (trim v))) (min_length opts))
      as [Hshort | Hlong].
    + destruct (on_input_short opts s1v Hwf1v Hshort) as (_ & Htimers & _ & Hse & _).
      rewrite filter_cons_False by (simpl; lia).
      rewrite (IH (on_input opts s1v) []); [| by apply on_input_wf | by left | done | done].
      rewrite Hse. change (searches s1v) with (searches s1). rewrite Hcalls1.
      simpl. by rewrite <- app_assoc.
    + destruct (on_input_long opts s1v Hwf1v Hlong) as (Htimers & _ & Hse & _).
      rewrite filter_cons_True by (simpl; lia).
      rewrite (IH (on_input opts s1v) [trim v]).
      * rewrite Hse. change (searches s1v) with (searches s1). rewrite Hcalls1.
        simpl. by rewrite <- app_assoc.
      * by apply on_input_wf.
      * right. eexists _, _. split; [exact Htimers |]. split; [reflexivity |].
        change (now s1v) with (now s1). rewrite Hnow1. simpl. split; [exact HT |].
        intros e He. destruct rest as [| e' rest']; [discriminate |].
        injection He as <-. pose proof (Hsep 0%nat (t, v) e' eq_refl eq_refl) as Hgap.
        simpl in Hgap. lia.
      * exact Hrest.
      * exact Hall.
Qed.

(** X24: input events that follow each other by more than the delay of the
    timer are not merged, timeouts running when they are due: each event
    whose trimmed value has at least [minLength] characters gets a search
    of its own, in the order of the events, once its delay has run out;
    the events with a shorter value, wherever they stand among the others,
    get none. *)
Theorem separated_inputs_each_search (s0 : page) (inputs : list (Z * string)) (T : Z) :
  timers_wf s0 -> timers s0 = ∅ ->
  separated (timeout_delay (debounceMs opts)) inputs ->
  Forall (fun e => (e.1 + timeout_delay (debounceMs opts) <= T)%Z) inputs ->
  map call_query
    (searches (advance self opts T (run self opts url_sync s0 (map input_at inputs))))
  = (map call_query (searches s0)
     ++ map (fun e => trim e.2)
          (filter (fun e => (min_length opts <= Z.of_nat (String.length (trim e.2)))%Z)
             inputs))%list.
Proof.
  intros Hwf He Hsep HT.
  by rewrite (separated_run T inputs s0 [] Hwf); [| by left | exact Hsep | exact HT].
Qed.

End RunProperties2.

(** X25: Enter on a value that passes the length guard replaces the pending
    debounce instead of adding to it: however long one waits afterwards,
    the typing and the key press together have made exactly one search. *)
Theorem enter_supersedes_debounce (self : SemanticSearch) (opts : options)
  (s : page) (T : Z) :
  timers_wf s ->
  long_enough opts (trim (input_value s)) ->
  searches (advance self opts T (handle self opts true (keydown "Enter") s))
  = (searches s ++ [call_of self opts (trim (input_value s))])%list.
Proof.
  intros Hwf Hlong.
  change (handle self opts true (keydown "Enter") s)
    with (on_keydown self opts true "Enter" s).
  unfold on_keydown. simpl andb. cbv iota.
  rewrite (proj2 (Z.leb_le _ _) Hlong).
  destruct (doSearch_timers self opts (trim (input_value s)) true (clearTimeout s))
    as (Ht & _).
  rewrite advance_idle by (by rewrite Ht, clearTimeout_timers).
  simpl searches. rewrite doSearch_searches.
  by destruct (clearTimeout_rest s) as (_ & _ & -> & _).
Qed.

End Properties.

(** ** The properties at the examples *)

(** From here on the page is the one of the examples: every statement
    below is closed, and runs the client on [example_platform]. *)
#[global] Existing Instance example_platform.

(** The theorem at four searches for [cats]: with a limit of 25, with a
    limit of 0, with options that hold no limit, and without options. Each
    one posts its request, with the limits 25, 10, 10 and 10. *)
Lemma search_request_body_witness :
  let posted (opts : option options) (lim : Z) :=
    search example_client "cats" opts
    = (Pending,
       Some {| req_method := "POST"; req_url := "https://search.example/v1/search";
               req_headers := [("Content-Type", "application/json")];
               req_body := VObj {[ "query" := VStr "cats"; "limit" := VNum lim ]} |}) in
  sendable example_client /\
  posted (Some (mkOptions (Some 25%Z) None None None None)) 25%Z /\
  posted (Some (mkOptions (Some 0%Z) None None None None)) 10%Z /\
  posted (Some no_options) 10%Z /\
  posted None 10%Z.
Proof.
  intros posted.
  assert (Hsend : sendable example_client).
  { split; [reflexivity |]. split; [by exists "https://search.example" | discriminate]. }
  assert (Hposted : forall opts lim,
            (forall lim', (forall o n, opts = Some o -> limit o = Some n -> n <> 0%Z -> lim' = n) ->
                          (forall o, opts = Some o -> limit o = Some 0%Z -> lim' = 10%Z) ->
                          (forall o, opts = Some o -> limit o = None -> lim' = 10%Z) ->
                          (opts = None -> lim' = 10%Z) -> lim' = lim) ->
            posted opts lim).
  { intros opts lim Hlim. subst posted. cbv beta.
    destruct (proj1 (search_request_body example_client "cats" opts) Hsend)
      as (r & props & lim' & Hr & Hbody & Hdom & Hq & Hl & H1 & H2 & H3 & H4).
    rewrite <- (Hlim lim' H1 H2 H3 H4). rewrite Hr.
    rewrite (search_steps example_client "cats" opts "https://search.example"
               eq_refl eq_refl) in Hr.
    cbv zeta in Hr.
    change (parses_as_url ("https://search.example" +:+ "/v1/search")) with true in Hr.
    change (truthy (readerKey example_client)) with false in Hr.
    cbv iota in Hr. injection Hr as <-. simpl in Hbody. injection Hbody as <-.
    rewrite lookup_insert_ne in Hl by done. rewrite lookup_singleton_eq in Hl.
    by injection Hl as <-. }
  split; [exact Hsend |].
  split; [| split; [| split]]; apply Hposted; intros lim' H1 H2 H3 H4.
  - by apply (H1 (mkOptions (Some 25%Z) None None None None)).
  - by apply (H2 (mkOptions (Some 0%Z) None None None None)).
  - by apply (H3 no_options).
  - by apply H4.
Defined.

(** What the request object refuses: an endpoint that does not parse as a
    URL, and a reader key with a line break inside. The promise is rejected
    with the SyntaxError and nothing is sent. A line break at the end of
    the key is stripped, and the request goes out. *)
Example search_refused_by_request_object :
  let line_break := String "010"%char EmptyString in
  search (mkClient (VStr "https://[") VUndefined) "cats" None
  = (Rejected (DOMException "SyntaxError"), None) /\
  search (mkClient (VStr "https://s") (VStr ("k" +:+ line_break +:+ "k"))) "cats" None
  = (Rejected (DOMException "SyntaxError"), None) /\
  exists r, search (mkClient (VStr "https://s") (VStr ("k" +:+ line_break))) "cats" None
            = (Pending, Some r).
Proof. split; [reflexivity | split; [reflexivity | by eexists]]. Qed.

(** A debounce of 2^31 ms reaches the timer as a negative delay: the
    timeout of the first edit is due at once, and the second edit, 50 ms
    later, comes after its search instead of cancelling it. *)
Example debounce_beyond_timer_range :
  let opts := mkOptions None None (Some (2 ^ 31)%Z) None None in
  map call_query
    (searches (run example_client opts false (example_page "")
                 [(0, input "ca"); (50, input "cats")]%Z))
  = ["ca"].
Proof. vm_compute. reflexivity. Qed.



(** The theorem at a page with a timeout pending for [cats], on an input
    event that leaves one letter. *)
Lemma short_query_no_search_witness :
  let s := run example_client no_options false (example_page "") [(0%Z, input "cats")] in
  let s' := handle example_client no_options false (input " c ") s in
  size (timers s) = 1%nat /\
  searches s' = [] /\ timers s' = ∅ /\
  innerHTML (resultContainer s') = "" /\ display (resultContainer s') = "none".
Proof.
  intros s s'.
  assert (Hwf : timers_wf s).
  { by apply run_wf, timers_wf_fresh. }
  assert (Hshort : (Z.of_nat (String.length (trim " c ")) < min_length no_options)%Z)
    by (vm_compute; reflexivity).
  destruct (short_query_no_search example_client no_options false s " c " Hwf Hshort)
    as (Hse & Ht & Hh & Hd & _).
  split; [vm_compute; reflexivity |]. by repeat split.
Defined.

(** C7, as the claim states it, fails: Enter on a value shorter than
    [minLength] (here one letter, the default being 2) runs no search and
    does not touch the URL; the listener returns with the page as it was. *)
Lemma enter_short_query_does_nothing :
  let s := example_page "a" in
  bindSearchBox example_client no_options true (Some "a") (Some cleared) example_window 0
  = Some s /\
  handle example_client no_options true (keydown "Enter") s = s /\
  searches s = [] /\
  searchParams_get "q" (searchParams (location_href (win s))) = None.
Proof. repeat split. Qed.

(** The theorem at a page with a timeout pending for [cats], on Enter. *)
Lemma url_sync_enter_and_init_witness :
  let s := run example_client no_options true (example_page "") [(0%Z, input " cats ")] in
  let entered := handle example_client no_options true (keydown "Enter") s in
  size (timers s) = 1%nat /\
  timers entered = ∅ /\
  searches entered = [call_of example_client no_options "cats"] /\
  length (entries (win entered)) = 1%nat /\
  searchParams_get "q" (searchParams (location_href (win entered))) = Some "cats".
Proof.
  intros s entered.
  assert (Hwf : timers_wf s) by (by apply run_wf, timers_wf_fresh).
  assert (Hw : window_wf (win s)) by (vm_compute; lia).
  destruct (url_sync_enter_and_init example_client no_options s "" cleared example_window 0
              Hwf Hw) as (Hlong & _).
  destruct Hlong as (Ht & Hse & Hlen & _ & Hq); [vm_compute; discriminate |].
  split; [vm_compute; reflexivity |]. split; [exact Ht |].
  split; [exact Hse |]. split; [exact Hlen |]. apply Hq. vm_compute. discriminate.
Defined.

(** The theorem at a client with a reader key. *)
Lemma search_request_shape_witness :
  exists r,
    search {| endpoint := VStr "https://s"; readerKey := VStr "k1" |} "cats" None
    = (Pending, Some r) /\
    req_url r = "https://s/v1/search" /\
    req_headers r = [("Content-Type", "application/json"); ("Authorization", "Bearer k1")].
Proof.
  destruct (search {| endpoint := VStr "https://s"; readerKey := VStr "k1" |} "cats" None)
    as [p [r |]] eqn:Hs; [| vm_compute in Hs; discriminate].
  destruct (search_request_shape _ _ _ _ _ Hs) as (-> & _ & _ & (base & Hb & Hurl) & _ & Hauth).
  destruct (Hauth eq_refl) as (key & Hkey & Hh).
  injection Hb as <-. injection Hkey as <-.
  exists r. by repeat split.
Defined.

(** The theorem at a good result followed by one with a numeric excerpt. *)
Lemma bad_excerpt_fails_the_list_witness :
  let results := [VObj {[ "title" := VStr "A" ]}; VObj {[ "excerpt" := VNum 5 ]}] in
  resultContainer
    (handle example_client no_options false (search_fulfilled (Some results))
       (example_page "cats"))
  = search_failed.
Proof.
  intros results.
  assert (Hn : _normalizeResult (VObj {[ "excerpt" := VNum 5 ]})
               = Ok {| title := VStr "Untitled"; url := VStr "#"; excerpt := VNum 5 |})
    by (vm_compute; reflexivity).
  assert (Hns : forall e, VNum 5 <> VStr e) by discriminate.
  assert (Hshow : showExcerpt no_options <> Some false) by discriminate.
  exact (proj2 (bad_excerpt_fails_the_list example_client no_options false
                  (example_page "cats") results 1 _ _ eq_refl Hn eq_refl Hns Hshow)).
Defined.

(** The theorem at a box bound with an empty field, after typing, a click
    and Enter. *)
Lemma searches_meet_min_length_witness :
  Forall (fun call => (min_length no_options <= Z.of_nat (String.length (call_query call)))%Z)
    (searches (run example_client no_options true (example_page "")
                 [(0, input "c"); (400, input "cats"); (500, click false);
                  (600, keydown "Enter"); (2000, input "")]%Z)).
Proof.
  exact (searches_meet_min_length example_client no_options true
           (Some "") (Some cleared) example_window 0 (example_page "") _ eq_refl).
Defined.

(** The theorem at a box bound with a limit of 0, after typing and Enter:
    both searches send a request, and both requests post the limit 10. *)
Lemma requests_carry_bound_limit_witness :
  let opts := mkOptions (Some 0%Z) None None None None in
  let s := run example_client opts true (example_page "")
             [(0, input "cats"); (600, keydown "Enter")]%Z in
  length (searches s) = 2%nat /\
  Forall (fun call => exists r lim,
            call_request call = Some r /\
            req_body r = VObj {[ "query" := VStr (call_query call);
                                 "limit" := VNum lim ]} /\
            lim = 10%Z)
    (searches s).
Proof.
  intros opts s. split; [vm_compute; reflexivity |].
  pose proof (requests_carry_bound_limit example_client opts true
                (Some "") (Some cleared) example_window 0 (example_page "")
                [(0, input "cats"); (600, keydown "Enter")]%Z eq_refl) as Hall.
  fold s in Hall.
  assert (Hsent : Forall (fun call => is_Some (call_request call)) (searches s))
    by (vm_compute; repeat (constructor; [by eexists |]); constructor).
  apply Forall_forall. intros call Hin.
  destruct (proj1 (Forall_forall _ _) Hsent call Hin) as [r Hr].
  destruct (proj1 (Forall_forall _ _) Hall call Hin r Hr) as (lim & Hbody & _ & Hzero & _).
  exists r, lim. split; [exact Hr |]. split; [exact Hbody |]. by apply Hzero.
Defined.

(** The theorem at a client without endpoint. *)
Lemma no_endpoint_no_request_witness :
  let nobody := {| endpoint := VUndefined; readerKey := VUndefined |} in
  let s := run nobody no_options true (example_page "")
             [(0, input "cats"); (600, keydown "Enter")]%Z in
  length (searches s) = 2%nat /\
  Forall (fun call =>
            call_request call = None /\
            call_promise call = Rejected (Error "SemanticSearch endpoint not configured"))
    (searches s).
Proof.
  intros nobody s. split; [vm_compute; reflexivity |].
  exact (no_endpoint_no_request nobody no_options true
           (Some "") (Some cleared) example_window 0 (example_page "") _ eq_refl eq_refl).
Defined.

(** The theorem at a box bound with an empty field, after two edits. *)
Lemma reachable_one_timer_witness :
  let s := run example_client no_options false (example_page "")
             [(0, input "ca"); (100, input "cats")]%Z in
  timers s = {[ 1%nat := {| fires_at := 400; timer_query := "cats" |} ]} /\
  (size (timers s) <= 1)%nat /\
  (forall id tm, timers s !! id = Some tm -> debounceTimer s = Some id).
Proof.
  intros s. split; [vm_compute; reflexivity |].
  exact (reachable_one_timer example_client no_options false
           (Some "") (Some cleared) example_window 0 (example_page "") _ eq_refl).
Defined.

(** The theorem at four edits, each more than 300 ms after the one before,
    the second of them leaving a single letter. *)
Lemma separated_inputs_each_search_witness :
  let inputs := [(0, "cats"); (301, "d"); (1000, " birds "); (1400, "dogs!")]%Z in
  map call_query
    (searches (advance example_client no_options 2000
                 (run example_client no_options false (example_page "")
                    (map input_at inputs))))
  = ["cats"; "birds"; "dogs!"].
Proof.
  intros inputs.
  assert (Hwf : timers_wf (example_page "")) by (by apply timers_wf_fresh).
  assert (Hsep : separated (timeout_delay (debounceMs no_options)) inputs).
  { intros i a b Ha Hb.
    do 3 (destruct i as [| i];
          [injection Ha as <-; injection Hb as <-; vm_compute; reflexivity |]).
    simpl in Hb. discriminate. }
  assert (HT : Forall (fun e => (e.1 + timeout_delay (debounceMs no_options) <= 2000)%Z)
                 inputs)
    by (repeat constructor; vm_compute; discriminate).
  rewrite (separated_inputs_each_search example_client no_options false
             (example_page "") inputs 2000 Hwf eq_refl Hsep HT).
  vm_compute. reflexivity.
Defined.

(** The theorem at a page with a timeout pending for the typed value. *)
Lemma enter_supersedes_debounce_witness :
  let s := run example_client no_options true (example_page "") [(0%Z, input "cats")] in
  size (timers s) = 1%nat /\
  searches (advance example_client no_options 5000
              (handle example_client no_options true (keydown "Enter") s))
  = [call_of example_client no_options "cats"].
Proof.
  intros s. split; [vm_compute; reflexivity |].
  assert (Hwf : timers_wf s) by (by apply run_wf, timers_wf_fresh).
  assert (Hlong : long_enough no_options (trim (input_value s)))
    by (vm_compute; discriminate).
  exact (enter_supersedes_debounce example_client no_options s 5000 Hwf Hlong).
Defined.
